(** * go-pxe: the DHCP codec, lease allocator and responder, and the TFTP
    transfer engine, embedded from [dhcp] and [tftp] and verified.

    Conventions of the embedding:
    - a Go [byte] is a [Z] in [0, 256); a [[]byte], [net.IP],
      [net.HardwareAddr] or a Go string used as bytes is a [list Z]; the
      [nil] slice is [[]];
    - [uint16] and [uint32] are [Z] with the wrap-around written out;
    - a Go [map] is a [gmap]; the order in which [range] visits a map is not
      fixed by Go, so code that ranges over a map takes the order as an
      argument;
    - a run-time panic (index out of range) is [None]. *)

From Stdlib Require Import ZArith List Lia Ascii String.
From stdpp Require Import base list list_numbers gmap strings.

Local Open Scope Z_scope.

(** ** Bytes, slices and [encoding/binary] *)

Definition is_byte (b : Z) : Prop := 0 <= b < 256.
Definition bytes (l : list Z) : Prop := Forall is_byte l.

Global Instance is_byte_dec b : Decision (is_byte b).
Proof. unfold is_byte. apply _. Defined.

(** [byte(v)]: conversion of an integer to a byte keeps the low 8 bits. *)
Definition to_byte (v : Z) : Z := v mod 256.

(** [make([]byte, n)] *)
Definition make (n : nat) : list Z := replicate n 0.

(** [s[lo:hi]] for [lo <= hi <= len(s)]. *)
Definition slice (s : list Z) (lo hi : nat) : list Z := take (hi - lo) (drop lo s).

(** [copy(dst, src)]: the first [min(len(dst), len(src))] bytes of [dst] are
    replaced, the value is the new content of [dst]. *)
Definition copy (dst src : list Z) : list Z :=
  let n := (length dst `min` length src)%nat in
  take n src ++ drop n dst.

(** [copy(buf[lo:hi], src)] seen from [buf], for [lo <= hi <= len(buf)]. *)
Definition copy_at (buf : list Z) (lo hi : nat) (src : list Z) : list Z :=
  take lo buf ++ copy (slice buf lo hi) src ++ drop hi buf.

(** The bytes of a Go string and the string of a byte slice. *)
Definition bytes_of_string (s : string) : list Z :=
  (λ c, Z.of_nat (nat_of_ascii c)) <$> list_ascii_of_string s.

Definition string_of_bytes (b : list Z) : string :=
  string_of_list_ascii ((λ x, ascii_of_nat (Z.to_nat x)) <$> b).

Module BigEndian.

(** [binary.BigEndian.Uint16]: panics when [len(b) < 2]. *)
Definition Uint16 (b : list Z) : option Z :=
  match b with
  | b0 :: b1 :: _ => Some (Z.lor b1 (Z.shiftl b0 8))
  | _ => None
  end.

(** [binary.BigEndian.Uint32]: panics when [len(b) < 4]. *)
Definition Uint32 (b : list Z) : option Z :=
  match b with
  | b0 :: b1 :: b2 :: b3 :: _ =>
      Some (Z.lor (Z.lor (Z.lor b3 (Z.shiftl b2 8)) (Z.shiftl b1 16)) (Z.shiftl b0 24))
  | _ => None
  end.

(** [binary.BigEndian.PutUint16(b, v)]: the two bytes written. *)
Definition PutUint16 (v : Z) : list Z :=
  [to_byte (Z.shiftr v 8); to_byte v].

(** [binary.BigEndian.PutUint32(b, v)]: the four bytes written. *)
Definition PutUint32 (v : Z) : list Z :=
  [to_byte (Z.shiftr v 24); to_byte (Z.shiftr v 16); to_byte (Z.shiftr v 8); to_byte v].

End BigEndian.

(** ** The [dhcp] package *)

Module DHCP.

Import BigEndian.

(** DHCP message types *)
Definition DISCOVER : Z := 1.
Definition OFFER : Z := 2.
Definition REQUEST : Z := 3.
Definition ACK : Z := 5.
Definition NAK : Z := 6.

(** DHCP options *)
Definition OptSubnetMask : Z := 1.
Definition OptRouter : Z := 3.
Definition OptDNS : Z := 6.
Definition OptBroadcast : Z := 28.
Definition OptRequestedIP : Z := 50.
Definition OptLeaseTime : Z := 51.
Definition OptMessageType : Z := 53.
Definition OptServerID : Z := 54.
Definition OptTFTPServer : Z := 66.
Definition OptBootFile : Z := 67.
Definition OptClientArch : Z := 93.
Definition OptEnd : Z := 255.

(** [Packet]: a BOOTP/DHCP packet. [SName] and [File] are the arrays
    [[64]byte] and [[128]byte]. *)
Record Packet : Type := mkPacket {
  Op : Z;
  HType : Z;
  HLen : Z;
  Hops : Z;
  XID : Z;
  Secs : Z;
  Flags : Z;
  CIAddr : list Z;
  YIAddr : list Z;
  SIAddr : list Z;
  GIAddr : list Z;
  CHAddr : list Z;
  SName : list Z;
  File : list Z;
  Options : gmap Z (list Z)
}.

(** [Config]: the server configuration. [BootFile] and [TFTPServer] are Go
    strings, kept as their bytes. *)
Record Config : Type := mkConfig {
  Interface : string;
  ServerIP : list Z;
  RangeStart : list Z;
  RangeEnd : list Z;
  SubnetMask : list Z;
  BootFile : list Z;
  TFTPServer : list Z
}.

Record lease : Type := mkLease { IP : list Z; MAC : list Z }.

(** [Server]: the mutex [mu] guards the whole of [allocateIP], which is
    therefore one atomic step on this state. *)
Record Server : Type := mkServer {
  config : Config;
  leases : gmap string lease;
  nextIP : list Z
}.

(** [net.IP.To4] of Go's library: a 4-byte address is returned as it is,
    a 16-byte address with the IPv4-in-IPv6 prefix gives its last four
    bytes, anything else gives [nil]. *)
Definition isZeros (p : list Z) : bool := forallb (Z.eqb 0) p.

Definition To4 (ip : list Z) : list Z :=
  if decide (length ip = 4%nat) then ip
  else if decide (length ip = 16%nat) then
    if isZeros (slice ip 0 10) && (ip !!! 10%nat =? 255) && (ip !!! 11%nat =? 255)
    then slice ip 12 16 else []
  else [].

(** [net.HardwareAddr.String] of Go's library: the bytes in lower-case
    hexadecimal, separated by colons. *)
Definition hexDigit : string := "0123456789abcdef".

Definition hex_at (n : Z) : ascii :=
  default "0"%char (String.get (Z.to_nat n) hexDigit).

Fixpoint String_from (i : nat) (a : list Z) : string :=
  match a with
  | [] => EmptyString
  | b :: a' =>
      let digits := String (hex_at (Z.shiftr b 4))
                      (String (hex_at (Z.land b 15)) (String_from (S i) a')) in
      if decide (0 < i)%nat then String ":"%char digits else digits
  end.

Definition HardwareAddr_String (a : list Z) : string := String_from 0 a.

Definition dupIP (ip : list Z) : list Z := copy (make (length ip)) ip.

(** [NewServer] *)
Definition NewServer (cfg : Config) : Server :=
  {| config := cfg; leases := ∅; nextIP := dupIP (RangeStart cfg) |}.

(** [allocateIP]: the address returned and the state left. [s.nextIP.To4()]
    shares its bytes with [s.nextIP], so [PutUint32] rewrites the cursor in
    place; the lease holds a copy made before. [RangeEnd] is not read. *)
Definition allocateIP (s : Server) (mac : list Z) : option (list Z * Server) :=
  let macStr := HardwareAddr_String mac in
  match leases s !! macStr with
  | Some l => Some (IP l, s)
  | None =>
      let ip := dupIP (nextIP s) in
      let leases' := <[macStr := {| IP := ip; MAC := mac |}]> (leases s) in
      let ipv4 := To4 (nextIP s) in
      val ← Uint32 ipv4;
      let val := (val + 1) mod 2 ^ 32 in
      Some (ip, {| config := config s; leases := leases'; nextIP := PutUint32 val |})
  end.

(** [parsePacket]: the option loop. [i] only grows, so [len(data)] rounds
    are enough. *)
Fixpoint parse_options (fuel : nat) (data : list Z) (i : nat)
    (opts : gmap Z (list Z)) : gmap Z (list Z) :=
  match fuel with
  | O => opts
  | S fuel' =>
      if decide (i < length data)%nat then
        let opt := data !!! i in
        if opt =? OptEnd then opts
        else if opt =? 0 then parse_options fuel' data (i + 1)%nat opts
        else if decide (length data <= i + 1)%nat then opts
        else
          let length_ := Z.to_nat (data !!! (i + 1)%nat) in
          if decide (length data < i + 2 + length_)%nat then opts
          else
            let optData := copy (make length_) (slice data (i + 2) (i + 2 + length_)) in
            parse_options fuel' data (i + 2 + length_)%nat (<[opt := optData]> opts)
      else opts
  end.

Definition has_cookie (data : list Z) : bool :=
  (data !!! 236%nat =? 99) && (data !!! 237%nat =? 130)
  && (data !!! 238%nat =? 83) && (data !!! 239%nat =? 99).

(** [parsePacket]: [None] is the error return. *)
Definition parsePacket (data : list Z) : option Packet :=
  if decide (length data < 240)%nat then None
  else
    xid ← Uint32 (slice data 4 8);
    secs ← Uint16 (slice data 8 10);
    flags ← Uint16 (slice data 10 12);
    Some {|
      Op := data !!! 0%nat;
      HType := data !!! 1%nat;
      HLen := data !!! 2%nat;
      Hops := data !!! 3%nat;
      XID := xid;
      Secs := secs;
      Flags := flags;
      CIAddr := copy (make 4) (slice data 12 16);
      YIAddr := copy (make 4) (slice data 16 20);
      SIAddr := copy (make 4) (slice data 20 24);
      GIAddr := copy (make 4) (slice data 24 28);
      CHAddr := copy (make 6) (slice data 28 34);
      SName := copy (make 64) (slice data 44 108);
      File := copy (make 128) (slice data 108 236);
      Options :=
        if bool_decide (240 < length data)%nat && has_cookie data
        then parse_options (length data) data 240 ∅
        else ∅
    |}.

(** [serializePacket]: the loop over [p.Options]. [ord] is the order in
    which [range] yields the entries. *)
Fixpoint write_options (ord : list (Z * list Z)) (buf : list Z) (i : nat)
    : list Z * nat :=
  match ord with
  | [] => (buf, i)
  | (opt, data) :: rest =>
      if decide (length buf <= i + 2 + length data)%nat then (buf, i)
      else
        let buf := <[i := opt]> buf in
        let buf := <[(i + 1)%nat := to_byte (Z.of_nat (length data))]> buf in
        let buf := copy_at buf (i + 2) (length buf) data in
        write_options rest buf (i + 2 + length data)%nat
  end.

(** The fixed part of [serializePacket], up to and with the magic cookie. *)
Definition write_header (p : Packet) : list Z :=
  let buf := make 576 in
  let buf := <[0%nat := Op p]> buf in
  let buf := <[1%nat := HType p]> buf in
  let buf := <[2%nat := HLen p]> buf in
  let buf := <[3%nat := Hops p]> buf in
  let buf := copy_at buf 4 8 (PutUint32 (XID p)) in
  let buf := copy_at buf 8 10 (PutUint16 (Secs p)) in
  let buf := copy_at buf 10 12 (PutUint16 (Flags p)) in
  let buf := match CIAddr p with
             | [] => buf
             | _ => copy_at buf 12 16 (To4 (CIAddr p))
             end in
  let buf := copy_at buf 16 20 (YIAddr p) in
  let buf := copy_at buf 20 24 (SIAddr p) in
  let buf := match GIAddr p with
             | [] => buf
             | _ => copy_at buf 24 28 (To4 (GIAddr p))
             end in
  let buf := copy_at buf 28 34 (CHAddr p) in
  let buf := copy_at buf 44 108 (SName p) in
  let buf := copy_at buf 108 236 (File p) in
  let buf := <[236%nat := 99]> buf in
  let buf := <[237%nat := 130]> buf in
  let buf := <[238%nat := 83]> buf in
  let buf := <[239%nat := 99]> buf in
  buf.

(** [ord] is an order in which [range p.Options] may yield the entries. *)
Definition range_order (p : Packet) (ord : list (Z * list Z)) : Prop :=
  ord ≡ₚ map_to_list (Options p).

Definition serializePacket (p : Packet) (ord : list (Z * list Z)) : list Z :=
  let buf := write_header p in
  let '(buf, i) := write_options ord buf 240 in
  let buf := <[i := OptEnd]> buf in
  slice buf 0 (i + 1).

(** The subnet broadcast address computed in [sendReply]:
    [subnet[i] = serverIP[i] | ^mask[i]] for [i < 4]; an index out of range
    panics. *)
Definition subnet_broadcast (serverIP mask : list Z) : option (list Z) :=
  mapM (λ i : nat, s ← serverIP !! i; m ← mask !! i; Some (Z.lor s (Z.lxor m 255)))
       (seq 0 4).

(** [sendReply]: the reply packet handed to [serializePacket]. The
    client-architecture option is read for the log only. The packet goes to
    the subnet broadcast address (option 28) on port 68, then to
    255.255.255.255 if that send fails. *)
Definition sendReply (s : Server) (req : Packet) (msgType : Z) (clientIP : list Z)
    : option Packet :=
  let bootFile := BootFile (config s) in
  let options : gmap Z (list Z) :=
    <[OptMessageType := [msgType]]>
    (<[OptServerID := To4 (ServerIP (config s))]>
    (<[OptSubnetMask := To4 (SubnetMask (config s))]>
    (<[OptRouter := To4 (ServerIP (config s))]>
    (<[OptDNS := To4 (ServerIP (config s))]>
    (<[OptLeaseTime := [0; 0; 14; 16]]>
    (<[OptBootFile := bootFile]>
    (<[OptTFTPServer := TFTPServer (config s)]> ∅))))))) in
  let serverIP := To4 (ServerIP (config s)) in
  let mask := SubnetMask (config s) in
  subnet ← subnet_broadcast serverIP mask;
  Some {|
    Op := 2;
    HType := 1;
    HLen := 6;
    Hops := 0;
    XID := XID req;
    Secs := 0;
    Flags := Flags req;
    CIAddr := [];
    YIAddr := To4 clientIP;
    SIAddr := To4 (ServerIP (config s));
    GIAddr := [];
    CHAddr := CHAddr req;
    SName := copy (make 64) (TFTPServer (config s));
    File := copy (make 128) bootFile;
    Options := <[OptBroadcast := subnet]> options
  |}.

Definition sendOffer (s : Server) (req : Packet) : option (Server * Packet) :=
  '(ip, s') ← allocateIP s (CHAddr req);
  reply ← sendReply s' req OFFER ip;
  Some (s', reply).

Definition sendACK (s : Server) (req : Packet) : option (Server * Packet) :=
  '(ip, s') ← allocateIP s (CHAddr req);
  reply ← sendReply s' req ACK ip;
  Some (s', reply).

(** One round of the loop of [ListenAndServe] on a parsed packet: the new
    state and the reply, if one is sent. *)
Definition dispatch (s : Server) (pkt : Packet) : option (Server * option Packet) :=
  let msgType := default [] (Options pkt !! OptMessageType) in
  match msgType with
  | [] => Some (s, None)
  | t :: _ =>
      if t =? DISCOVER then '(s', r) ← sendOffer s pkt; Some (s', Some r)
      else if t =? REQUEST then '(s', r) ← sendACK s pkt; Some (s', Some r)
      else Some (s, None)
  end.

(** One round of the loop of [ListenAndServe] on a datagram. *)
Definition serve (s : Server) (data : list Z) : option (Server * option Packet) :=
  match parsePacket data with
  | None => Some (s, None)
  | Some pkt => dispatch s pkt
  end.

(** The loop of [ListenAndServe] over the datagrams received, with the
    replies in the order sent. *)
Fixpoint serve_all (s : Server) (datagrams : list (list Z))
    : option (Server * list Packet) :=
  match datagrams with
  | [] => Some (s, [])
  | data :: rest =>
      '(s', r) ← serve s data;
      '(s'', rs) ← serve_all s' rest;
      Some (s'', option_list r ++ rs)
  end.

(** A run of [allocateIP] over a sequence of hardware addresses. *)
Fixpoint allocate_all (s : Server) (macs : list (list Z))
    : option (list (list Z) * Server) :=
  match macs with
  | [] => Some ([], s)
  | mac :: rest =>
      '(ip, s') ← allocateIP s mac;
      '(ips, s'') ← allocate_all s' rest;
      Some (ip :: ips, s'')
  end.

End DHCP.

(** ** The [tftp] package *)

Module TFTP.

Import BigEndian.

Definition opRRQ : Z := 1.
Definition opWRQ : Z := 2.
Definition opDATA : Z := 3.
Definition opACK : Z := 4.
Definition opERR : Z := 5.

Definition blockSize : Z := 512.

Record Server : Type := mkServer { root : string }.

(** [strings.HasPrefix], [strings.TrimPrefix] and [strings.Contains]. *)
Fixpoint strip_prefix (prefix s : string) : option string :=
  match prefix with
  | EmptyString => Some s
  | String c prefix' =>
      match s with
      | EmptyString => None
      | String d s' => if Ascii.eqb c d then strip_prefix prefix' s' else None
      end
  end.

Definition HasPrefix (s prefix : string) : bool :=
  bool_decide (is_Some (strip_prefix prefix s)).

Definition TrimPrefix (s prefix : string) : string :=
  default s (strip_prefix prefix s).

Fixpoint Contains (s substr : string) : bool :=
  HasPrefix s substr ||
  match s with
  | EmptyString => false
  | String _ s' => Contains s' substr
  end.

(** The outcome of one [conn.Read] under the 3-second deadline: an error
    (the deadline passed, or the socket failed) or a datagram. *)
Inductive read_result : Type :=
| ReadErr
| ReadOk (dgram : list Z).

(** The remote end and the network, as seen from one transfer: what the
    next [conn.Read] gives, from the packets written so far on the
    connection, the latest first. *)
Definition peer : Type := list (list Z) → read_result.

(** What a handler does that can be seen from outside. *)
Inductive event : Type :=
| FileAccess (path : string)
| Sent (pkt : list Z).

(** The DATA packet of the block loop. *)
Definition data_packet (block : Z) (chunk : list Z) : list Z :=
  let pkt := make (4 + length chunk) in
  let pkt := copy_at pkt 0 2 (PutUint16 opDATA) in
  let pkt := copy_at pkt 2 4 (PutUint16 block) in
  copy_at pkt 4 (length pkt) chunk.

(** The ERROR packet sent when the file cannot be read. *)
Definition error_packet (filename : string) : list Z :=
  let errMsg := bytes_of_string ("File not found: " +:+ filename) in
  let pkt := make (5 + length errMsg) in
  let pkt := copy_at pkt 0 2 (PutUint16 opERR) in
  let pkt := copy_at pkt 2 4 (PutUint16 1) in
  copy_at pkt 4 (length pkt) errMsg.

(** The test on what [conn.Read(ackBuf)] gave: [n >= 4], opcode ACK, and
    the block number of the block being sent. *)
Definition acks (block : Z) (dgram : list Z) : bool :=
  let ackBuf := copy (make 4) dgram in
  let n := (4 `min` length dgram)%nat in
  bool_decide (4 <= n)%nat
  && bool_decide (Uint16 (slice ackBuf 0 2) = Some opACK)
  && bool_decide (Uint16 (slice ackBuf 2 4) = Some block).

(** The retry loop, [retries] rounds left: the packets it writes. Nothing
    tells the caller whether the loop ended on an ACK or ran out. *)
Fixpoint send_block (retries : nat) (pkt : list Z) (block : Z) (p : peer)
    (hist : list (list Z)) : list (list Z) :=
  match retries with
  | O => []
  | S retries' =>
      let hist := pkt :: hist in
      match p hist with
      | ReadErr => pkt :: send_block retries' pkt block p hist
      | ReadOk dgram =>
          if acks block dgram then [pkt]
          else pkt :: send_block retries' pkt block p hist
      end
  end.

(** The block loop of [handleRead], at most [fuel] rounds of it: the
    packets written, in order, and whether the loop returned. *)
Fixpoint transfer (fuel : nat) (data : list Z) (p : peer) (block offset : Z)
    (hist : list (list Z)) : list (list Z) * bool :=
  match fuel with
  | O => ([], false)
  | S fuel' =>
      let end_ := offset + blockSize in
      let end_ := if decide (Z.of_nat (length data) < end_) then Z.of_nat (length data) else end_ in
      let chunk := slice data (Z.to_nat offset) (Z.to_nat end_) in
      let pkt := data_packet block chunk in
      let sent := send_block 5 pkt block p hist in
      if decide (Z.of_nat (length chunk) < blockSize) then (sent, true)
      else
        let block := (block + 1) mod 2 ^ 16 in
        let offset := ((block - 1) mod 2 ^ 16) * blockSize in
        let '(rest, returned) := transfer fuel' data p block offset (reverse sent ++ hist) in
        (sent ++ rest, returned)
  end.

(** The loop [for idx < len(rest) && rest[idx] != 0 { idx++ }]. *)
Fixpoint name_end (rest : list Z) : nat :=
  match rest with
  | [] => O
  | b :: rest' => if b =? 0 then O else S (name_end rest')
  end.

Section handler.

(** [filepath.Clean], [filepath.Join] and [os.ReadFile] ([None] is an
    error) are the library's and the file system's. *)
Variable Clean : string → string.
Variable Join : string → string → string.
Variable ReadFile : string → option (list Z).

(** [handleRead], with the connection to [remote] open: what it does, in
    order, and whether it returned within [fuel] rounds of the block
    loop. *)
Definition handleRead (s : Server) (filename : string) (p : peer) (fuel : nat)
    : list event * bool :=
  let clean := Clean filename in
  let clean := TrimPrefix clean "/" in
  if Contains clean ".." then ([], true)
  else
    let fullPath := Join (root s) clean in
    match ReadFile fullPath with
    | None => ([FileAccess fullPath; Sent (error_packet filename)], true)
    | Some data =>
        let '(sent, returned) := transfer fuel data p 1 0 [] in
        (FileAccess fullPath :: (Sent <$> sent), returned)
    end.

(** The file name of a datagram received by [ListenAndServe], when it is
    a read request: the bytes after the opcode, up to the first zero. *)
Definition rrq_filename (dgram : list Z) : option string :=
  if decide (length dgram < 4)%nat then None
  else
    match Uint16 (slice dgram 0 2) with
    | Some opcode =>
        if opcode =? opRRQ then
          let rest := slice dgram 2 (length dgram) in
          let idx := name_end rest in
          Some (string_of_bytes (slice rest 0 idx))
        else None
    | None => None
    end.

(** One datagram of [ListenAndServe]: the handler it starts, if any. *)
Definition serve (s : Server) (dgram : list Z) (p : peer) (fuel : nat)
    : list event * bool :=
  match rrq_filename dgram with
  | Some filename => handleRead s filename p fuel
  | None => ([], true)
  end.

End handler.

(** A model of [filepath.Clean] and [filepath.Join] on slash-separated
    paths, to run the handler on requests: empty and [.] elements go, a
    [..] element removes the element before it, goes when there is none and
    the path is rooted, and stays otherwise; [Join] cleans the non-empty
    names joined by a slash. *)
Fixpoint split_slash (s : string) : list string :=
  match s with
  | EmptyString => [EmptyString]
  | String c s' =>
      if Ascii.eqb c "/" then EmptyString :: split_slash s'
      else
        match split_slash s' with
        | seg :: rest => String c seg :: rest
        | [] => [String c EmptyString]
        end
  end.

Definition clean_element (rooted : bool) (out : list string) (e : string) : list string :=
  if bool_decide (e = "" ∨ e = ".")%string then out
  else if bool_decide (e = "..")%string then
    match out with
    | top :: out' => if bool_decide (top = "..")%string then e :: out else out'
    | [] => if rooted then [] else [e]
    end
  else e :: out.

Fixpoint join_slash (l : list string) : string :=
  match l with
  | [] => ""
  | [e] => e
  | e :: l' => e +:+ "/" +:+ join_slash l'
  end.

Definition Clean_slash (path : string) : string :=
  let rooted := HasPrefix path "/" in
  let out := reverse (foldl (clean_element rooted) [] (split_slash path)) in
  let r := ((if rooted then "/" else "") +:+ join_slash out)%string in
  if bool_decide (r = "")%string then "." else r.

Definition Join_slash (dir name : string) : string :=
  if bool_decide (dir = EmptyString) then
    if bool_decide (name = EmptyString) then EmptyString else Clean_slash name
  else if bool_decide (name = EmptyString) then Clean_slash dir
  else Clean_slash (dir +:+ "/" +:+ name).

(** A client that acknowledges at once the block just written. *)
Definition prompt_client : peer :=
  λ hist,
    match hist with
    | pkt :: _ => ReadOk (PutUint16 opACK ++ slice pkt 2 4)
    | [] => ReadErr
    end.

(** A client that never answers. *)
Definition silent_client : peer := λ _, ReadErr.

End TFTP.

(** ** Notions used in the statements *)

(** The IPv4 address held by a [net.IP], as a number. *)
Definition ip_value (ip : list Z) : option Z := BigEndian.Uint32 (DHCP.To4 ip).

(** The allocation cursor of the server, as a number. *)
Definition cursor (s : DHCP.Server) : option Z := ip_value (DHCP.nextIP s).

(** What [net.ParseIP] gives for the dotted address [a.b.c.d]: the 16-byte
    form. *)
Definition v4in6 (a b c d : Z) : list Z :=
  [0; 0; 0; 0; 0; 0; 0; 0; 0; 0; 255; 255; a; b; c; d].

(** The configuration [main] builds from the default flags. *)
Definition default_config : DHCP.Config :=
  {| DHCP.Interface := "en7";
     DHCP.ServerIP := v4in6 10 0 0 1;
     DHCP.RangeStart := v4in6 10 0 0 100;
     DHCP.RangeEnd := v4in6 10 0 0 200;
     DHCP.SubnetMask := [255; 255; 255; 0];
     DHCP.BootFile := bytes_of_string "bootx64.efi";
     DHCP.TFTPServer := bytes_of_string "10.0.0.1" |}.

(** The same with [--dhcp-end 10.0.0.101]: a range of two addresses. *)
Definition two_address_config : DHCP.Config :=
  {| DHCP.Interface := "en7";
     DHCP.ServerIP := v4in6 10 0 0 1;
     DHCP.RangeStart := v4in6 10 0 0 100;
     DHCP.RangeEnd := v4in6 10 0 0 101;
     DHCP.SubnetMask := [255; 255; 255; 0];
     DHCP.BootFile := bytes_of_string "bootx64.efi";
     DHCP.TFTPServer := bytes_of_string "10.0.0.1" |}.

(** Three hardware addresses. *)
Definition mac_a : list Z := [0; 17; 34; 51; 68; 85].
Definition mac_b : list Z := [0; 17; 34; 51; 68; 86].
Definition mac_c : list Z := [0; 17; 34; 51; 68; 87].

(** One option on the wire: tag, length byte, value. *)
Definition encode_option (o : Z * list Z) : list Z :=
  o.1 :: to_byte (Z.of_nat (length o.2)) :: o.2.

(** The options of [ord] that [serializePacket] writes from offset [i] into
    a buffer of [cap] bytes: those before the first that does not fit. *)
Fixpoint fitting_prefix (ord : list (Z * list Z)) (i cap : nat) : list (Z * list Z) :=
  match ord with
  | [] => []
  | o :: rest =>
      if decide (cap <= i + 2 + length o.2)%nat then []
      else o :: fitting_prefix rest (i + 2 + length o.2) cap
  end.

(** The bytes the options take on the wire, and the condition under which
    the loop of [serializePacket] writes them all. *)
Definition options_size (ord : list (Z * list Z)) : nat :=
  sum_list ((λ o, 2 + length o.2)%nat <$> ord).

Definition options_fit (ord : list (Z * list Z)) : Prop :=
  (240 + options_size ord < 576)%nat.

(** What the loop of [parsePacket] does with one option, and the options it
    reads back as they were written: tag other than pad and end, value of at
    most 255 bytes. *)
Definition insert_option (m : gmap Z (list Z)) (o : Z * list Z) : gmap Z (list Z) :=
  <[o.1 := o.2]> m.

Definition plain_option (o : Z * list Z) : Prop :=
  o.1 ≠ 0 /\ o.1 ≠ 255 /\ (length o.2 <= 255)%nat.

(** The fixed part of a packet on the wire, for fields of the lengths
    [parsePacket] gives them. *)
Definition header_bytes (p : DHCP.Packet) : list Z :=
  [DHCP.Op p; DHCP.HType p; DHCP.HLen p; DHCP.Hops p]
  ++ BigEndian.PutUint32 (DHCP.XID p)
  ++ BigEndian.PutUint16 (DHCP.Secs p)
  ++ BigEndian.PutUint16 (DHCP.Flags p)
  ++ DHCP.CIAddr p ++ DHCP.YIAddr p ++ DHCP.SIAddr p ++ DHCP.GIAddr p
  ++ DHCP.CHAddr p ++ make 10
  ++ DHCP.SName p ++ DHCP.File p
  ++ [99; 130; 83; 99].

(** The packets [parsePacket] can give: integers in range, address fields
    and arrays of their lengths, options with a tag other than pad and end
    and a value of at most 255 bytes. *)
Definition wire_form (p : DHCP.Packet) : Prop :=
  0 <= DHCP.XID p < 2 ^ 32 /\ 0 <= DHCP.Secs p < 2 ^ 16 /\ 0 <= DHCP.Flags p < 2 ^ 16
  /\ length (DHCP.CIAddr p) = 4%nat /\ length (DHCP.YIAddr p) = 4%nat
  /\ length (DHCP.SIAddr p) = 4%nat /\ length (DHCP.GIAddr p) = 4%nat
  /\ length (DHCP.CHAddr p) = 6%nat
  /\ length (DHCP.SName p) = 64%nat /\ length (DHCP.File p) = 128%nat
  /\ map_Forall (λ k v, plain_option (k, v)) (DHCP.Options p).

(** A DISCOVER of a PXE client with hardware address [mac], and the
    datagram that carries it. *)
Definition discover_request (mac : list Z) : DHCP.Packet :=
  {| DHCP.Op := 1; DHCP.HType := 1; DHCP.HLen := 6; DHCP.Hops := 0;
     DHCP.XID := 305419896; DHCP.Secs := 0; DHCP.Flags := 32768;
     DHCP.CIAddr := make 4; DHCP.YIAddr := make 4;
     DHCP.SIAddr := make 4; DHCP.GIAddr := make 4;
     DHCP.CHAddr := mac; DHCP.SName := make 64; DHCP.File := make 128;
     DHCP.Options := <[DHCP.OptMessageType := [DHCP.DISCOVER]]>
                       (<[DHCP.OptClientArch := [0; 7]]> ∅) |}.

Definition discover_datagram : list Z :=
  header_bytes (discover_request mac_a) ++ [53; 1; 1; 93; 2; 0; 7; 255].

(** A reply whose two name options take 202 bytes each: together they do
    not fit the 336 bytes left after the header. *)
Definition long_name : list Z := replicate 200 97.

Definition overfull_packet : DHCP.Packet :=
  {| DHCP.Op := 2; DHCP.HType := 1; DHCP.HLen := 6; DHCP.Hops := 0;
     DHCP.XID := 305419896; DHCP.Secs := 0; DHCP.Flags := 32768;
     DHCP.CIAddr := []; DHCP.YIAddr := [10; 0; 0; 100];
     DHCP.SIAddr := [10; 0; 0; 1]; DHCP.GIAddr := [];
     DHCP.CHAddr := mac_a; DHCP.SName := make 64; DHCP.File := make 128;
     DHCP.Options := <[DHCP.OptTFTPServer := long_name]>
                       (<[DHCP.OptBootFile := long_name]> ∅) |}.


(** A server that can go on: the cursor holds an IPv4 address and the
    broadcast address can be computed. *)
Definition can_serve (s : DHCP.Server) : Prop :=
  is_Some (cursor s)
  /\ is_Some (DHCP.subnet_broadcast (DHCP.To4 (DHCP.ServerIP (DHCP.config s)))
               (DHCP.SubnetMask (DHCP.config s))).

(** A path with a parent-directory element: [..] is one of the elements
    between its slashes. *)
Definition has_parent_segment (s : string) : Prop :=
  ".."%string ∈ TFTP.split_slash s.

(** A file system that holds one file. *)
Definition single_file (path : string) (data : list Z) : string → option (list Z) :=
  λ q, if decide (q = path) then Some data else None.

(** The bytes of the [j]-th block of a file, [j] from 1, and the packet that
    carries them: the block number is [j] modulo 2^16. *)
Definition block_chunk (data : list Z) (j : Z) : list Z :=
  slice data (Z.to_nat ((j - 1) * 512)) (Z.to_nat (Z.min (j * 512) (Z.of_nat (length data)))).

Definition block_packet (data : list Z) (j : Z) : list Z :=
  TFTP.data_packet (j mod 2 ^ 16) (block_chunk data j).

(** The number of blocks of a file of this size, the last one short. *)
Definition block_count (data : list Z) : Z := Z.of_nat (length data) / 512 + 1.

(** A peer that acknowledges every block on the first attempt. *)
Definition acks_at_once (p : TFTP.peer) : Prop :=
  forall block chunk hist,
    0 <= block < 2 ^ 16 ->
    exists dgram,
      p (TFTP.data_packet block chunk :: hist) = TFTP.ReadOk dgram
      /\ TFTP.acks block dgram = true.

(** A file of 512 * 65535 + 2 bytes: 65535 full blocks and two bytes more. *)
Definition wrapping_file : list Z := replicate (Z.to_nat 33553922) 7.

(** What the retry loop makes of one [conn.Read]: [true] when it gave an
    ACK of [block], [false] when it failed or gave anything else. *)
Definition acknowledges (block : Z) (r : TFTP.read_result) : bool :=
  match r with
  | TFTP.ReadErr => false
  | TFTP.ReadOk dgram => TFTP.acks block dgram
  end.

(** What stands in the options area of a datagram before the end option: a
    pad byte or an option. *)
Inductive option_field : Type :=
| PadField
| OptionField (o : Z * list Z).

Definition encode_field (f : option_field) : list Z :=
  match f with
  | PadField => [0]
  | OptionField o => encode_option o
  end.

Definition field_option (f : option_field) : option (Z * list Z) :=
  match f with
  | PadField => None
  | OptionField o => Some o
  end.

Definition field_options (fs : list option_field) : list (Z * list Z) :=
  omap field_option fs.

(** The start of an option that the datagram ends in the middle of: nothing
    at all, the tag alone, or the tag and the length byte with fewer bytes
    than it announces. *)
Definition cut_option (t : list Z) : Prop :=
  match t with
  | [] => True
  | k :: t' =>
      k ≠ 0 /\ k ≠ 255
      /\ match t' with
         | [] => True
         | lb :: v => (length v < Z.to_nat lb)%nat
         end
  end.

(** The packet [p] with the options [opts]. *)
Definition with_options (p : DHCP.Packet) (opts : gmap Z (list Z)) : DHCP.Packet :=
  DHCP.mkPacket (DHCP.Op p) (DHCP.HType p) (DHCP.HLen p) (DHCP.Hops p) (DHCP.XID p)
    (DHCP.Secs p) (DHCP.Flags p) (DHCP.CIAddr p) (DHCP.YIAddr p) (DHCP.SIAddr p)
    (DHCP.GIAddr p) (DHCP.CHAddr p) (DHCP.SName p) (DHCP.File p) opts.

(** The packet that stands on the wire for [p]: every address and array
    cut or filled with zeros to the size of its field, the client and relay
    addresses in their four-byte form. *)
Definition on_wire (p : DHCP.Packet) : DHCP.Packet :=
  DHCP.mkPacket (DHCP.Op p) (DHCP.HType p) (DHCP.HLen p) (DHCP.Hops p) (DHCP.XID p)
    (DHCP.Secs p) (DHCP.Flags p)
    (copy (make 4) (DHCP.To4 (DHCP.CIAddr p)))
    (copy (make 4) (DHCP.YIAddr p))
    (copy (make 4) (DHCP.SIAddr p))
    (copy (make 4) (DHCP.To4 (DHCP.GIAddr p)))
    (copy (make 6) (DHCP.CHAddr p))
    (copy (make 64) (DHCP.SName p))
    (copy (make 128) (DHCP.File p))
    (DHCP.Options p).

(** The cursor stands as many addresses after [start] as there are leases. *)
Definition cursor_counts (start : Z) (s : DHCP.Server) : Prop :=
  cursor s = Some ((start + Z.of_nat (size (DHCP.leases s))) mod 2 ^ 32).

(** The leases hold the addresses from [start] up to the cursor, each one
    once. *)
Definition leases_apart (start : Z) (s : DHCP.Server) : Prop :=
  (forall k l, DHCP.leases s !! k = Some l ->
     exists u, ip_value (DHCP.IP l) = Some u
               /\ start <= u < start + Z.of_nat (size (DHCP.leases s)))
  /\ (forall k k' l l',
        DHCP.leases s !! k = Some l -> DHCP.leases s !! k' = Some l' ->
        ip_value (DHCP.IP l) = ip_value (DHCP.IP l') -> k = k').


(** A peer from which no acknowledgement ever comes: its answers, if any,
    are no ACK of the block being sent. *)
Definition never_acknowledges (p : TFTP.peer) : Prop :=
  forall block hist, acknowledges block (p hist) = false.




(** The packet [p] holds the fixed fields of the datagram [data]: every
    field is the bytes at its offsets, the integers read high byte first. *)
Definition fields_of (data : list Z) (p : DHCP.Packet) : Prop :=
  DHCP.Op p = data !!! 0%nat /\ DHCP.HType p = data !!! 1%nat
  /\ DHCP.HLen p = data !!! 2%nat /\ DHCP.Hops p = data !!! 3%nat
  /\ 0 <= DHCP.XID p < 2 ^ 32 /\ BigEndian.PutUint32 (DHCP.XID p) = slice data 4 8
  /\ 0 <= DHCP.Secs p < 2 ^ 16 /\ BigEndian.PutUint16 (DHCP.Secs p) = slice data 8 10
  /\ 0 <= DHCP.Flags p < 2 ^ 16 /\ BigEndian.PutUint16 (DHCP.Flags p) = slice data 10 12
  /\ DHCP.CIAddr p = slice data 12 16 /\ DHCP.YIAddr p = slice data 16 20
  /\ DHCP.SIAddr p = slice data 20 24 /\ DHCP.GIAddr p = slice data 24 28
  /\ DHCP.CHAddr p = slice data 28 34
  /\ DHCP.SName p = slice data 44 108 /\ DHCP.File p = slice data 108 236.


(** ** Facts on bytes and slices *)

Lemma lor_shiftl_add (lo hi k : Z) :
  0 <= k -> 0 <= lo < 2 ^ k -> Z.lor lo (Z.shiftl hi k) = hi * 2 ^ k + lo.
Proof.
  intros Hk Hlo.
  pose proof (Z.add_lor_land lo (Z.shiftl hi k)) as Hadd.
  assert (Z.land lo (Z.shiftl hi k) = 0) as Hland.
  { apply Z.bits_inj'. intros n Hn.
    rewrite Z.land_spec, Z.bits_0.
    destruct (Z.lt_ge_cases n k) as [Hlt|Hge].
    - rewrite (Z.shiftl_spec_low hi k n Hlt). apply andb_false_r.
    - destruct (Z.eq_dec lo 0) as [->|Hne]; [by rewrite Z.bits_0|].
      rewrite (Z.bits_above_log2 lo n); [done|lia|].
      apply Z.log2_lt_pow2; [lia|].
      eapply Z.lt_le_trans; [apply Hlo|]. apply Z.pow_le_mono_r; lia. }
  rewrite Hland, Z.shiftl_mul_pow2 in Hadd by lia.
  rewrite Z.shiftl_mul_pow2 by lia. lia.
Qed.

Lemma Uint16_val (b0 b1 : Z) (l : list Z) :
  is_byte b1 -> BigEndian.Uint16 (b0 :: b1 :: l) = Some (b0 * 256 + b1).
Proof.
  intros H1. unfold BigEndian.Uint16. f_equal.
  rewrite (lor_shiftl_add b1 b0 8) by (unfold is_byte in *; lia). lia.
Qed.

Lemma Uint32_val (b0 b1 b2 b3 : Z) (l : list Z) :
  is_byte b1 -> is_byte b2 -> is_byte b3 -> 0 <= b0 ->
  BigEndian.Uint32 (b0 :: b1 :: b2 :: b3 :: l)
  = Some (b0 * 16777216 + b1 * 65536 + b2 * 256 + b3).
Proof.
  unfold is_byte. intros H1 H2 H3 H0. unfold BigEndian.Uint32. f_equal.
  rewrite (lor_shiftl_add b3 b2 8) by lia.
  rewrite (lor_shiftl_add _ b1 16) by lia.
  rewrite (lor_shiftl_add _ b0 24) by lia. lia.
Qed.

Lemma to_byte_is_byte v : is_byte (to_byte v).
Proof. unfold is_byte, to_byte. apply Z.mod_pos_bound. lia. Qed.

Lemma Uint16_PutUint16 v l :
  0 <= v < 65536 -> BigEndian.Uint16 (BigEndian.PutUint16 v ++ l) = Some v.
Proof.
  intros Hv. unfold BigEndian.PutUint16. simpl app.
  rewrite Uint16_val by apply to_byte_is_byte. f_equal.
  unfold to_byte. rewrite Z.shiftr_div_pow2 by lia.
  change (2 ^ 8) with 256.
  rewrite (Z.mod_small (v / 256)) by (split; [apply Z.div_pos|apply Z.div_lt_upper_bound]; lia).
  pose proof (Z.div_mod v 256). lia.
Qed.

Lemma Uint32_PutUint32 v l :
  0 <= v < 4294967296 -> BigEndian.Uint32 (BigEndian.PutUint32 v ++ l) = Some v.
Proof.
  intros Hv. unfold BigEndian.PutUint32. simpl app.
  pose proof (to_byte_is_byte (Z.shiftr v 24)) as [Hb0 _].
  rewrite Uint32_val by (apply to_byte_is_byte || exact Hb0).
  clear Hb0. f_equal. unfold to_byte. rewrite !Z.shiftr_div_pow2 by lia.
  change (2 ^ 8) with 256. change (2 ^ 16) with 65536. change (2 ^ 24) with 16777216.
  Z.div_mod_to_equations. lia.
Qed.

Lemma PutUint16_Uint16 b0 b1 v :
  is_byte b0 -> is_byte b1 ->
  BigEndian.Uint16 [b0; b1] = Some v -> BigEndian.PutUint16 v = [b0; b1].
Proof.
  unfold is_byte. intros H0 H1. rewrite Uint16_val by done. intros [= <-].
  unfold BigEndian.PutUint16, to_byte. rewrite Z.shiftr_div_pow2 by lia.
  change (2 ^ 8) with 256. f_equal; [|f_equal]; Z.div_mod_to_equations; lia.
Qed.

Lemma PutUint32_Uint32 b0 b1 b2 b3 v :
  is_byte b0 -> is_byte b1 -> is_byte b2 -> is_byte b3 ->
  BigEndian.Uint32 [b0; b1; b2; b3] = Some v -> BigEndian.PutUint32 v = [b0; b1; b2; b3].
Proof.
  unfold is_byte. intros H0 H1 H2 H3. rewrite Uint32_val by (unfold is_byte; lia).
  intros [= <-].
  unfold BigEndian.PutUint32, to_byte. rewrite !Z.shiftr_div_pow2 by lia.
  change (2 ^ 8) with 256. change (2 ^ 16) with 65536. change (2 ^ 24) with 16777216.
  repeat f_equal; Z.div_mod_to_equations; lia.
Qed.


(** ** Slices and [copy] *)

Lemma length_copy dst src : length (copy dst src) = length dst.
Proof. unfold copy. rewrite length_app, length_take, length_drop. lia. Qed.

Lemma copy_exact dst src : length src = length dst -> copy dst src = src.
Proof.
  intros H. unfold copy. rewrite H, Nat.min_id.
  rewrite <- H at 1. rewrite firstn_all, drop_all. apply app_nil_r.
Qed.


Lemma length_slice s lo hi :
  (hi <= length s)%nat -> length (slice s lo hi) = (hi - lo)%nat.
Proof. intros H. unfold slice. rewrite length_take, length_drop. lia. Qed.

Lemma lookup_slice s lo hi k :
  slice s lo hi !! k = if decide (k < hi - lo)%nat then s !! (lo + k)%nat else None.
Proof.
  unfold slice. case_decide.
  - by rewrite lookup_take_lt, lookup_drop.
  - by rewrite lookup_take_ge by lia.
Qed.

Lemma slice_0 s n : slice s 0 n = take n s.
Proof. unfold slice. by rewrite Nat.sub_0_r, drop_0. Qed.

Lemma lookup_copy dst src k :
  copy dst src !! k =
  if decide (k < length dst `min` length src)%nat then src !! k else dst !! k.
Proof.
  unfold copy. set (n := (length dst `min` length src)%nat).
  assert (length (take n src) = n) as Hn by (rewrite length_take; lia).
  case_decide.
  - rewrite lookup_app_l by lia. by rewrite lookup_take_lt.
  - rewrite lookup_app_r by lia. rewrite lookup_drop, Hn. f_equal. lia.
Qed.

Lemma lookup_copy_at buf lo hi src k :
  (lo <= hi <= length buf)%nat ->
  copy_at buf lo hi src !! k =
  if decide (lo <= k < lo + (hi - lo) `min` length src)%nat
  then src !! (k - lo)%nat else buf !! k.
Proof.
  intros Hb. unfold copy_at.
  assert (length (take lo buf) = lo) as Hlo by (rewrite length_take; lia).
  assert (length (copy (slice buf lo hi) src) = (hi - lo)%nat) as Hmid
    by (rewrite length_copy, length_slice; lia).
  destruct (decide (k < lo)%nat) as [Hk|Hk].
  - rewrite lookup_app_l by lia. rewrite lookup_take_lt by lia.
    case_decide; [lia|done].
  - rewrite lookup_app_r by lia. rewrite Hlo.
    destruct (decide (k < hi)%nat) as [Hk'|Hk'].
    + rewrite lookup_app_l by lia. rewrite lookup_copy, length_slice by lia.
      rewrite lookup_slice.
      repeat case_decide; try lia; try done. f_equal. lia.
    + rewrite lookup_app_r by lia. rewrite Hmid, lookup_drop.
      case_decide; [lia|]. f_equal. lia.
Qed.

Lemma length_copy_at buf lo hi src :
  (lo <= hi <= length buf)%nat -> length (copy_at buf lo hi src) = length buf.
Proof.
  intros Hb. unfold copy_at.
  rewrite !length_app, length_take, length_copy, length_slice, length_drop by lia. lia.
Qed.

Lemma slice_app_mid (pre x post : list Z) lo hi :
  length pre = lo -> (lo + length x)%nat = hi -> slice (pre ++ x ++ post) lo hi = x.
Proof.
  intros <- <-. unfold slice. rewrite drop_app_length.
  replace (length pre + length x - length pre)%nat with (length x) by lia.
  by rewrite take_app_length.
Qed.

(** ** The lease allocator *)

Section allocator.

Import DHCP.

Lemma dupIP_id ip : dupIP ip = ip.
Proof. unfold dupIP. apply copy_exact. unfold make. by rewrite length_replicate. Qed.

Lemma To4_len4 ip : length ip = 4%nat -> To4 ip = ip.
Proof. intros H. unfold To4. by rewrite decide_True. Qed.

Lemma To4_PutUint32 v : To4 (BigEndian.PutUint32 v) = BigEndian.PutUint32 v.
Proof. by apply To4_len4. Qed.

Lemma To4_bytes ip : bytes ip -> bytes (To4 ip).
Proof.
  intros H. unfold To4. repeat case_decide; try done; try constructor.
  destruct (_ && _); [|constructor].
  unfold slice. by apply Forall_take, Forall_drop.
Qed.

Lemma Uint32_range b v :
  bytes b -> BigEndian.Uint32 b = Some v -> 0 <= v < 2 ^ 32.
Proof.
  intros Hb H. destruct b as [|b0 [|b1 [|b2 [|b3 b]]]]; try done.
  repeat (apply Forall_cons in Hb as [? Hb]).
  unfold is_byte in *.
  rewrite Uint32_val in H by (unfold is_byte; lia). injection H as <-. lia.
Qed.

Lemma ip_value_range ip v : bytes ip -> ip_value ip = Some v -> 0 <= v < 2 ^ 32.
Proof. intros Hb. apply Uint32_range. by apply To4_bytes. Qed.

Lemma ip_value_PutUint32 v :
  0 <= v < 2 ^ 32 -> ip_value (BigEndian.PutUint32 v) = Some v.
Proof.
  intros Hv. unfold ip_value. rewrite To4_PutUint32.
  rewrite <- (app_nil_r (BigEndian.PutUint32 v)). by apply Uint32_PutUint32.
Qed.

Lemma allocateIP_known s mac l :
  leases s !! HardwareAddr_String mac = Some l -> allocateIP s mac = Some (IP l, s).
Proof. intros H. unfold allocateIP. by rewrite H. Qed.

Lemma allocateIP_fresh s mac v :
  leases s !! HardwareAddr_String mac = None -> cursor s = Some v ->
  allocateIP s mac =
  Some (nextIP s,
        {| config := config s;
           leases := <[HardwareAddr_String mac := {| IP := nextIP s; MAC := mac |}]> (leases s);
           nextIP := BigEndian.PutUint32 ((v + 1) mod 2 ^ 32) |}).
Proof.
  intros Hl Hc. unfold allocateIP. rewrite Hl.
  unfold cursor, ip_value in Hc. rewrite Hc. simpl. by rewrite dupIP_id.
Qed.

Lemma allocateIP_cursor s mac ip s' :
  allocateIP s mac = Some (ip, s') -> is_Some (cursor s) -> is_Some (cursor s').
Proof.
  intros H [v Hv]. destruct (leases s !! HardwareAddr_String mac) as [l|] eqn:Hl.
  - rewrite (allocateIP_known _ _ _ Hl) in H. injection H as _ <-. by exists v.
  - rewrite (allocateIP_fresh _ _ _ Hl Hv) in H. injection H as _ <-.
    unfold cursor. simpl. rewrite ip_value_PutUint32; [done|].
    apply Z.mod_pos_bound. lia.
Qed.

Lemma allocateIP_total s mac :
  is_Some (cursor s) -> is_Some (allocateIP s mac).
Proof.
  intros [v Hv]. destruct (leases s !! HardwareAddr_String mac) as [l|] eqn:Hl.
  - by rewrite (allocateIP_known _ _ _ Hl).
  - by rewrite (allocateIP_fresh _ _ _ Hl Hv).
Qed.

Lemma allocateIP_config s mac ip s' :
  allocateIP s mac = Some (ip, s') -> config s' = config s.
Proof.
  unfold allocateIP. destruct (leases s !! _); [by intros [= _ <-]|].
  destruct (BigEndian.Uint32 _); simpl; [by intros [= _ <-]|done].
Qed.

Lemma allocateIP_leases_mono s mac ip s' k l :
  allocateIP s mac = Some (ip, s') -> leases s !! k = Some l -> leases s' !! k = Some l.
Proof.
  unfold allocateIP. destruct (leases s !! HardwareAddr_String mac) eqn:Hl.
  - by intros [= _ <-].
  - destruct (BigEndian.Uint32 _); simpl; [|done]. intros [= _ <-] Hk. simpl.
    rewrite lookup_insert_ne; [done|]. intros <-. congruence.
Qed.

Lemma allocateIP_records s mac ip s' :
  allocateIP s mac = Some (ip, s') ->
  exists l, leases s' !! HardwareAddr_String mac = Some l /\ IP l = ip.
Proof.
  unfold allocateIP. destruct (leases s !! HardwareAddr_String mac) as [l|] eqn:Hl.
  - intros [= <- <-]. by exists l.
  - destruct (BigEndian.Uint32 _); simpl; [|done]. intros [= <- <-]. simpl.
    eexists. by rewrite lookup_insert_eq.
Qed.

Lemma allocate_all_total s macs :
  is_Some (cursor s) ->
  exists ips s', allocate_all s macs = Some (ips, s')
    /\ length ips = length macs /\ is_Some (cursor s') /\ config s' = config s.
Proof.
  revert s. induction macs as [|mac macs IH]; intros s Hc.
  - by exists [], s.
  - destruct (allocateIP_total s mac Hc) as [[ip s1] H1].
    destruct (IH s1) as (ips & s2 & H2 & Hlen & Hc2 & Hcfg);
      [by eapply allocateIP_cursor|].
    exists (ip :: ips), s2. simpl. rewrite H1. simpl. rewrite H2. simpl.
    repeat split; [by rewrite Hlen|done|].
    rewrite Hcfg. by eapply allocateIP_config.
Qed.

Lemma allocate_all_known s macs ips s' l j mac :
  allocate_all s macs = Some (ips, s') ->
  leases s !! HardwareAddr_String mac = Some l ->
  (macs !! j = Some mac -> ips !! j = Some (IP l))
  /\ leases s' !! HardwareAddr_String mac = Some l.
Proof.
  revert s ips j. induction macs as [|m macs IH]; intros s ips j H Hl.
  - injection H as <- <-. done.
  - simpl in H. destruct (allocateIP s m) as [[ip s1]|] eqn:H1; [|done].
    simpl in H. destruct (allocate_all s1 macs) as [[ips' s2]|] eqn:H2; [|done].
    injection H as <- <-.
    pose proof (allocateIP_leases_mono _ _ _ _ _ _ H1 Hl) as Hl1.
    split.
    + destruct j as [|j]; simpl.
      * intros [= ->]. rewrite (allocateIP_known _ _ _ Hl) in H1. congruence.
      * by apply (IH s1 ips' j).
    + by apply (IH s1 ips' 0%nat).
Qed.

Lemma allocate_all_same s macs ips s' i j mac :
  allocate_all s macs = Some (ips, s') ->
  macs !! i = Some mac -> macs !! j = Some mac ->
  exists ip, ips !! i = Some ip /\ ips !! j = Some ip.
Proof.
  revert s ips i j. induction macs as [|m macs IH]; intros s ips i j H Hi Hj; [done|].
  simpl in H. destruct (allocateIP s m) as [[ip s1]|] eqn:H1; [|done].
  simpl in H. destruct (allocate_all s1 macs) as [[ips' s2]|] eqn:H2; [|done].
  injection H as <- <-.
  destruct (allocateIP_records _ _ _ _ H1) as (l & Hl & <-).
  destruct i as [|i], j as [|j]; simpl in *.
  - by exists (IP l).
  - injection Hi as ->. exists (IP l). split; [done|].
    by apply (allocate_all_known _ _ _ _ _ _ _ H2 Hl).
  - injection Hj as ->. exists (IP l). split; [|done].
    by apply (allocate_all_known _ _ _ _ _ _ _ H2 Hl).
  - by apply (IH s1).
Qed.

End allocator.

(** ** [HardwareAddr.String] tells hardware addresses apart *)

Section hardware_addresses.

Import DHCP.






End hardware_addresses.

(** ** Allocation for hardware addresses seen for the first time *)

Section fresh_allocation.

Import DHCP.


End fresh_allocation.

Ltac solve_bytes := repeat constructor; unfold is_byte; lia.



(** C2, at the failing input: with the range 10.0.0.100 - 10.0.0.101 fully
    assigned, the call for a third hardware address returns 10.0.0.102 as any
    other address, and leaves the cursor on 10.0.0.103. *)
Theorem allocate_past_range_end :
  exists s',
    DHCP.allocate_all (DHCP.NewServer two_address_config) [mac_a; mac_b; mac_c]
    = Some ([v4in6 10 0 0 100; [10; 0; 0; 101]; [10; 0; 0; 102]], s')
    /\ DHCP.nextIP s' = [10; 0; 0; 103]
    /\ ip_value (DHCP.RangeEnd two_address_config) = Some 167772261
    /\ ip_value [10; 0; 0; 102] = Some 167772262.
Proof. eexists. vm_compute. done. Qed.

(** ** [serializePacket]: what the option loop writes *)

Section encoder.

Import DHCP.

Lemma take_copy_at_end buf lo src :
  (lo + length src <= length buf)%nat ->
  take (lo + length src) (copy_at buf lo (length buf) src) = take lo buf ++ src.
Proof.
  intros H. apply list_eq. intros k.
  destruct (decide (k < lo + length src)%nat) as [Hk|Hk].
  - rewrite lookup_take_lt, lookup_copy_at by lia.
    destruct (decide (k < lo)%nat) as [Hk'|Hk'].
    + rewrite decide_False by lia. rewrite lookup_app_l by (rewrite length_take; lia).
      by rewrite lookup_take_lt.
    + rewrite decide_True by lia. rewrite lookup_app_r by (rewrite length_take; lia).
      rewrite length_take. f_equal. lia.
  - rewrite lookup_take_ge by lia. symmetry. apply lookup_ge_None.
    rewrite length_app, length_take. lia.
Qed.

Lemma take_S_insert (buf : list Z) i v :
  (i < length buf)%nat -> take (S i) (<[i:=v]> buf) = take i buf ++ [v].
Proof.
  intros H. rewrite (take_S_r _ _ v) by (by apply list_lookup_insert_eq).
  by rewrite take_insert_ge by lia.
Qed.

Lemma write_options_spec ord buf i :
  (i < length buf)%nat ->
  exists buf' i',
    write_options ord buf i = (buf', i')
    /\ i' = (i + length (flat_map encode_option (fitting_prefix ord i (length buf))))%nat
    /\ (i' < length buf)%nat
    /\ length buf' = length buf
    /\ take i' buf' = take i buf ++ flat_map encode_option (fitting_prefix ord i (length buf)).
Proof.
  revert buf i. induction ord as [|[opt data] rest IH]; intros buf i Hi.
  - exists buf, i. simpl. rewrite Nat.add_0_r, app_nil_r. done.
  - simpl. case_decide as Hfit.
    + exists buf, i. simpl. rewrite Nat.add_0_r, app_nil_r. done.
    + set (buf1 := <[i:=opt]> buf).
      set (buf2 := <[(i + 1)%nat:=to_byte (Z.of_nat (length data))]> buf1).
      assert (length buf2 = length buf) as Hlen2
        by (subst buf2 buf1; by rewrite !length_insert).
      set (buf3 := copy_at buf2 (i + 2) (length buf2) data).
      assert (length buf3 = length buf) as Hlen3
        by (subst buf3; rewrite length_copy_at; lia).
      destruct (IH buf3 (i + 2 + length data)%nat) as (buf' & i' & Hw & Hi' & Hlt & Hlen & Htake);
        [lia|].
      exists buf', i'. rewrite Hlen3 in *.
      split; [done|]. split.
      { rewrite Hi'. simpl. rewrite length_app. simpl. lia. }
      split; [done|]. split; [done|].
      rewrite Htake. simpl.
      assert (take (i + 2 + length data) buf3 = take i buf ++ opt :: to_byte (Z.of_nat (length data)) :: data) as ->; [|by rewrite <- app_assoc].
      subst buf3. rewrite take_copy_at_end by lia.
      replace (i + 2)%nat with (S (i + 1)) by lia.
      subst buf2. rewrite take_S_insert by (subst buf1; rewrite length_insert; lia).
      replace (i + 1)%nat with (S i) by lia.
      subst buf1. rewrite take_S_insert by lia.
      by rewrite <- !app_assoc.
Qed.

Lemma length_insert_576 (buf : list Z) i v :
  length buf = 576%nat -> length (<[i:=v]> buf) = 576%nat.
Proof. by rewrite length_insert. Qed.

Lemma length_copy_at_576 buf lo hi src :
  (lo <= hi <= 576)%nat -> length buf = 576%nat -> length (copy_at buf lo hi src) = 576%nat.
Proof. intros H Hb. rewrite length_copy_at; lia. Qed.

Lemma length_write_header p : length (write_header p) = 576%nat.
Proof.
  unfold write_header.
  repeat first
    [ apply length_insert_576
    | apply length_copy_at_576; [lia|]
    | match goal with |- context [match ?l with [] => _ | _ :: _ => _ end] => destruct l end ];
  apply length_replicate.
Qed.

Lemma serializePacket_shape p ord :
  serializePacket p ord =
  take 240 (write_header p) ++ flat_map encode_option (fitting_prefix ord 240 576) ++ [255].
Proof.
  unfold serializePacket.
  destruct (write_options_spec ord (write_header p) 240) as (buf' & i' & Hw & Hi' & Hlt & Hlen & Htake).
  { rewrite length_write_header. lia. }
  rewrite Hw. rewrite slice_0. replace (i' + 1)%nat with (S i') by lia.
  rewrite take_S_insert by lia. rewrite Htake, length_write_header.
  by rewrite <- app_assoc.
Qed.

Lemma options_size_cons o rest :
  options_size (o :: rest) = (2 + length o.2 + options_size rest)%nat.
Proof. reflexivity. Qed.

Lemma fitting_prefix_all ord i cap :
  (i + options_size ord < cap)%nat -> fitting_prefix ord i cap = ord.
Proof.
  revert i. induction ord as [|o rest IH]; intros i H; [done|].
  rewrite options_size_cons in H. cbn [fitting_prefix].
  rewrite decide_False by lia. f_equal. apply IH. lia.
Qed.

End encoder.

(** ** [parsePacket]: reading back what the option loop wrote *)

Section decoder.

Import DHCP.

Lemma parse_options_encoded ord pre opts fuel :
  Forall plain_option ord -> (length ord < fuel)%nat ->
  parse_options fuel (pre ++ flat_map encode_option ord ++ [255]) (length pre) opts
  = foldl insert_option opts ord.
Proof.
  revert pre opts fuel. induction ord as [|[k v] rest IH]; intros pre opts fuel Hp Hf.
  - destruct fuel as [|fuel]; [simpl in Hf; lia|]. simpl.
    rewrite decide_True by (rewrite length_app; simpl; lia).
    rewrite list_lookup_total_middle by done. done.
  - destruct fuel as [|fuel]; [simpl in Hf; lia|].
    apply Forall_cons in Hp as [(Hk0 & Hk255 & Hlen) Hp]. simpl in Hk0, Hk255, Hlen.
    change (flat_map encode_option ((k, v) :: rest))
      with ((k :: to_byte (Z.of_nat (length v)) :: v) ++ flat_map encode_option rest).
    set (lb := to_byte (Z.of_nat (length v))).
    assert (Z.to_nat lb = length v) as Hlb.
    { subst lb. unfold to_byte. rewrite Z.mod_small by lia. lia. }
    set (data := pre ++ ((k :: lb :: v) ++ flat_map encode_option rest) ++ [255]).
    assert (data = (pre ++ k :: lb :: v) ++ flat_map encode_option rest ++ [255]) as Hdata
      by (subst data; by rewrite <- !app_assoc).
    assert (length data = (length pre + 2 + length v + length (flat_map encode_option rest) + 1)%nat) as Hlength
      by (subst data; repeat (rewrite ?length_app; simpl); lia).
    assert (data !!! length pre = k) as Hk
      by (subst data; simpl; by rewrite list_lookup_total_middle).
    assert (data !!! (length pre + 1)%nat = lb) as Hl.
    { subst data. rewrite lookup_total_app_r by lia.
      replace (length pre + 1 - length pre)%nat with 1%nat by lia. done. }
    assert (slice data (length pre + 2) (length pre + 2 + length v) = v) as Hv.
    { subst data. replace (pre ++ ((k :: lb :: v) ++ flat_map encode_option rest) ++ [255])
        with ((pre ++ [k; lb]) ++ v ++ (flat_map encode_option rest ++ [255]))
        by (rewrite <- !app_assoc; done).
      apply slice_app_mid; rewrite ?length_app; simpl; lia. }
    clearbody data lb.
    cbn [parse_options].
    rewrite decide_True by lia. cbv zeta. rewrite Hk.
    rewrite (proj2 (Z.eqb_neq k OptEnd)) by done.
    rewrite (proj2 (Z.eqb_neq k 0)) by done.
    rewrite decide_False by lia. rewrite Hl, Hlb.
    rewrite decide_False by lia. rewrite Hv.
    rewrite copy_exact by (unfold make; by rewrite length_replicate).
    rewrite Hdata.
    replace (length pre + 2 + length v)%nat with (length (pre ++ k :: lb :: v))
      by (rewrite length_app; simpl; lia).
    rewrite IH; [done|done|simpl in Hf; lia].
Qed.

Lemma foldl_insert_option ord m :
  foldl insert_option m ord = list_to_map (reverse ord) ∪ m.
Proof.
  revert m. induction ord as [|[k v] rest IH]; intros m.
  - simpl. by rewrite (left_id_L ∅ (∪)).
  - simpl. rewrite IH. rewrite reverse_cons, list_to_map_app. simpl.
    unfold insert_option. simpl.
    rewrite <- (assoc_L (∪)). f_equal.
    by rewrite insert_union_singleton_l.
Qed.

Lemma foldl_insert_option_range_order (m : gmap Z (list Z)) ord :
  ord ≡ₚ map_to_list m -> foldl insert_option ∅ ord = m.
Proof.
  intros Hperm. rewrite foldl_insert_option, (right_id_L ∅ (∪)).
  transitivity (list_to_map (map_to_list m) : gmap Z (list Z));
    [|apply list_to_map_to_list].
  apply list_to_map_proper.
  - rewrite fmap_reverse, reverse_Permutation, Hperm. apply NoDup_fst_map_to_list.
  - by rewrite reverse_Permutation.
Qed.

End decoder.

(** ** The fixed part of the packet, written and read back *)

Section header.

Import DHCP.

(** A list of known length, as its elements. *)
Ltac explode l H :=
  simpl in H;
  repeat (destruct l as [|? l]; [discriminate H|]);
  destruct l; [clear H|discriminate H].

Lemma header_wire_form p :
  wire_form p -> take 240 (write_header p) = header_bytes p.
Proof.
  destruct p as [op ht hl hops xid secs flags ci yi si gi ch sn fl opts].
  unfold wire_form. simpl.
  intros (_ & _ & _ & Hci & Hyi & Hsi & Hgi & Hch & Hsn & Hfl & _).
  explode ci Hci. explode yi Hyi. explode si Hsi. explode gi Hgi. explode ch Hch.
  explode sn Hsn. explode fl Hfl.
  vm_compute. reflexivity.
Qed.

Lemma Uint32_PutUint32_exact v :
  0 <= v < 2 ^ 32 -> BigEndian.Uint32 (BigEndian.PutUint32 v) = Some v.
Proof.
  intros Hv. rewrite <- (app_nil_r (BigEndian.PutUint32 v)). by apply Uint32_PutUint32.
Qed.

Lemma Uint16_PutUint16_exact v :
  0 <= v < 2 ^ 16 -> BigEndian.Uint16 (BigEndian.PutUint16 v) = Some v.
Proof.
  intros Hv. rewrite <- (app_nil_r (BigEndian.PutUint16 v)). by apply Uint16_PutUint16.
Qed.

Lemma parsePacket_header_bytes p tail :
  wire_form p -> (0 < length tail)%nat ->
  parsePacket (header_bytes p ++ tail) =
  Some (mkPacket (Op p) (HType p) (HLen p) (Hops p) (XID p) (Secs p) (Flags p)
          (CIAddr p) (YIAddr p) (SIAddr p) (GIAddr p) (CHAddr p) (SName p) (File p)
          (parse_options (240 + length tail) (header_bytes p ++ tail) 240 ∅)).
Proof.
  destruct p as [op ht hl hops xid secs flags ci yi si gi ch sn fl opts].
  intros Hw Htail. unfold wire_form in Hw. simpl in Hw.
  destruct Hw as (Hxid & Hsecs & Hflags & Hci & Hyi & Hsi & Hgi & Hch & Hsn & Hfl & _).
  cbn [Op HType HLen Hops XID Secs Flags CIAddr YIAddr SIAddr GIAddr CHAddr SName File].
  explode ci Hci. explode yi Hyi. explode si Hsi. explode gi Hgi. explode ch Hch.
  explode sn Hsn. explode fl Hfl.
  match goal with |- parsePacket (header_bytes ?P ++ _) = _ => set (hdr := header_bytes P) end.
  assert (length hdr = 240%nat) as Hlen0 by (vm_compute; reflexivity).
  assert (length (hdr ++ tail) = (240 + length tail)%nat) as Hlen
    by (rewrite length_app, Hlen0; reflexivity).
  unfold parsePacket. rewrite decide_False by lia. rewrite bool_decide_true by lia.
  rewrite Hlen.
  change (slice (hdr ++ tail) 4 8) with (BigEndian.PutUint32 xid).
  change (slice (hdr ++ tail) 8 10) with (BigEndian.PutUint16 secs).
  change (slice (hdr ++ tail) 10 12) with (BigEndian.PutUint16 flags).
  rewrite Uint32_PutUint32_exact, !Uint16_PutUint16_exact by done.
  change (has_cookie (hdr ++ tail)) with true.
  reflexivity.
Qed.

End header.

(** ** Encoding, then decoding *)

Section codec.

Import DHCP.

Lemma length_header_bytes p : wire_form p -> length (header_bytes p) = 240%nat.
Proof.
  intros (_ & _ & _ & Hci & Hyi & Hsi & Hgi & Hch & Hsn & Hfl & _).
  unfold header_bytes. rewrite !length_app, Hci, Hyi, Hsi, Hgi, Hch, Hsn, Hfl.
  reflexivity.
Qed.

Lemma range_order_plain p ord :
  wire_form p -> range_order p ord -> Forall plain_option ord.
Proof.
  intros (_ & _ & _ & _ & _ & _ & _ & _ & _ & _ & Hopts) Hord.
  apply Forall_forall. intros [k v] Hin.
  apply (Hopts k v). apply elem_of_map_to_list. by rewrite <- Hord.
Qed.

Lemma length_flat_map_encode ord :
  length (flat_map encode_option ord) = options_size ord.
Proof.
  induction ord as [|o rest IH]; [done|].
  rewrite options_size_cons. simpl. rewrite length_app, IH. simpl. lia.
Qed.

Lemma length_options_size ord : (length ord <= options_size ord)%nat.
Proof.
  induction ord as [|o rest IH]; [done|].
  rewrite options_size_cons. simpl. lia.
Qed.

Lemma parse_serialize p ord :
  wire_form p -> range_order p ord -> options_fit ord ->
  parsePacket (serializePacket p ord) = Some p.
Proof.
  intros Hw Hord Hfit.
  rewrite serializePacket_shape, header_wire_form by done.
  rewrite fitting_prefix_all by (unfold options_fit in Hfit; lia).
  rewrite parsePacket_header_bytes by (rewrite ?length_app; simpl; done || lia).
  rewrite <- (length_header_bytes p Hw).
  rewrite parse_options_encoded.
  - rewrite (foldl_insert_option_range_order (Options p)) by done. by destruct p.
  - by eapply range_order_plain.
  - rewrite length_app, length_flat_map_encode. simpl. pose proof (length_options_size ord). lia.
Qed.

Lemma Uint16_range b v :
  bytes b -> BigEndian.Uint16 b = Some v -> 0 <= v < 2 ^ 16.
Proof.
  intros Hb H. destruct b as [|b0 [|b1 b]]; try done.
  repeat (apply Forall_cons in Hb as [? Hb]).
  unfold is_byte in *.
  rewrite Uint16_val in H by (unfold is_byte; lia). injection H as <-. lia.
Qed.

Lemma slice_bytes s lo hi : bytes s -> bytes (slice s lo hi).
Proof. intros H. unfold slice. by apply Forall_take, Forall_drop. Qed.

Lemma parse_options_plain fuel data i opts :
  bytes data ->
  map_Forall (λ k v, plain_option (k, v)) opts ->
  map_Forall (λ k v, plain_option (k, v)) (parse_options fuel data i opts).
Proof.
  intros Hb. revert i opts. induction fuel as [|fuel IH]; intros i opts Hopts; [done|].
  simpl. case_decide as Hi; [|done].
  destruct (data !!! i =? OptEnd) eqn:Hend; [done|].
  destruct (data !!! i =? 0) eqn:Hpad; [by apply IH|].
  case_decide as Hi1; [done|]. case_decide as Hi2; [done|].
  apply IH. apply map_Forall_insert_2; [|done].
  apply Z.eqb_neq in Hend, Hpad. split; [done|]. split; [done|]. simpl.
  rewrite length_copy. unfold make. rewrite length_replicate.
  assert (is_byte (data !!! (i + 1)%nat)) as Hbyte.
  { apply Forall_lookup_total; [done|lia]. }
  unfold is_byte in Hbyte. lia.
Qed.

Lemma parsePacket_wire_form data p :
  bytes data -> parsePacket data = Some p -> wire_form p.
Proof.
  intros Hb. unfold parsePacket. case_decide as Hlen; [done|].
  destruct (BigEndian.Uint32 _) as [xid|] eqn:Hxid; [|done].
  destruct (BigEndian.Uint16 (slice data 8 10)) as [secs|] eqn:Hsecs; [|done].
  destruct (BigEndian.Uint16 (slice data 10 12)) as [flags|] eqn:Hflags; [|done].
  simpl. intros [= <-]. unfold wire_form. simpl.
  split; [by eapply Uint32_range, Hxid; apply slice_bytes|].
  split; [by eapply Uint16_range, Hsecs; apply slice_bytes|].
  split; [by eapply Uint16_range, Hflags; apply slice_bytes|].
  rewrite !length_copy. unfold make. rewrite !length_replicate.
  repeat (split; [done|]).
  destruct (_ && _); [|apply map_Forall_empty].
  apply parse_options_plain; [done|apply map_Forall_empty].
Qed.

End codec.

(** The option loop of [parsePacket] ends within [len(data) - i] rounds:
    more rounds change nothing. *)
Lemma parse_options_rounds n m data i opts :
  (length data - i <= n)%nat -> (length data - i <= m)%nat ->
  DHCP.parse_options n data i opts = DHCP.parse_options m data i opts.
Proof.
  revert m i opts. induction n as [|n IH]; intros m i opts Hn Hm.
  - destruct m as [|m]; [done|]. simpl. by rewrite decide_False by lia.
  - destruct m as [|m].
    + simpl. by rewrite decide_False by lia.
    + simpl. case_decide; [|done].
      destruct (_ =? DHCP.OptEnd); [done|].
      destruct (_ =? 0); [apply IH; lia|].
      case_decide; [done|]. case_decide; [done|]. apply IH; lia.
Qed.

(** ** Options that do not fit *)

(** C9, as the code has it: from offset 240, the encoder writes the options
    in the order of the iteration, each as tag, length byte (the length
    modulo 256) and value, stops without a word at the first one that would
    reach the end of the 576-byte buffer, and writes the terminator 255; all
    of them are written when they fit. *)
Theorem serializePacket_options (p : DHCP.Packet) (ord : list (Z * list Z)) :
  drop 240 (DHCP.serializePacket p ord)
  = flat_map encode_option (fitting_prefix ord 240 576) ++ [255]
  /\ (options_fit ord ->
      drop 240 (DHCP.serializePacket p ord) = flat_map encode_option ord ++ [255]).
Proof.
  assert (drop 240 (DHCP.serializePacket p ord)
          = flat_map encode_option (fitting_prefix ord 240 576) ++ [255]) as H.
  { rewrite serializePacket_shape. apply drop_app_length'.
    rewrite length_take, length_write_header. lia. }
  split; [done|]. intros Hfit. rewrite H.
  by rewrite fitting_prefix_all by (unfold options_fit in Hfit; lia).
Qed.

Lemma serializePacket_options_witness :
  options_fit [(53, [1]); (93, [0; 7])]
  /\ drop 240 (DHCP.serializePacket (discover_request mac_a) [(53, [1]); (93, [0; 7])])
     = [53; 1; 1; 93; 2; 0; 7; 255].
Proof.
  assert (options_fit [(53, [1]); (93, [0; 7])]) as Hfit by (vm_compute; lia).
  split; [exact Hfit|].
  exact (proj2 (serializePacket_options (discover_request mac_a) [(53, [1]); (93, [0; 7])]) Hfit).
Defined.

(** C9 as stated fails: the two name options of [overfull_packet] do not
    fit together. Visited boot file first, the TFTP server name is left out;
    visited the other way round, the boot file is. Either way the encoder
    returns a packet that decodes, one option short. *)
Lemma serializePacket_drops_options :
  DHCP.range_order overfull_packet [(67, long_name); (66, long_name)]
  /\ DHCP.range_order overfull_packet [(66, long_name); (67, long_name)]
  /\ ~ options_fit [(67, long_name); (66, long_name)]
  /\ DHCP.Options <$> DHCP.parsePacket
       (DHCP.serializePacket overfull_packet [(67, long_name); (66, long_name)])
     = Some {[67 := long_name]}
  /\ DHCP.Options <$> DHCP.parsePacket
       (DHCP.serializePacket overfull_packet [(66, long_name); (67, long_name)])
     = Some {[66 := long_name]}.
Proof.
  assert (map_to_list (DHCP.Options overfull_packet) ≡ₚ [(66, long_name); (67, long_name)]) as Hperm.
  { unfold overfull_packet. simpl DHCP.Options.
    rewrite map_to_list_insert by done.
    rewrite map_to_list_insert by done.
    by rewrite map_to_list_empty. }
  unfold DHCP.range_order.
  split; [rewrite Hperm; apply perm_swap|].
  split; [by rewrite Hperm|].
  split; [vm_compute; lia|].
  split; by vm_compute.
Qed.

(** ** The responder *)

Section responder.

Import DHCP.


Ltac option_lookup :=
  repeat first
    [ rewrite lookup_insert_eq
    | rewrite lookup_insert_ne by (by compute) ].


Lemma dispatch_no_type s req :
  default [] (Options req !! OptMessageType) = [] -> dispatch s req = Some (s, None).
Proof. intros H. unfold dispatch. by rewrite H. Qed.


Lemma dispatch_reply_type s req t rest :
  Options req !! OptMessageType = Some (t :: rest) ->
  t = DISCOVER \/ t = REQUEST ->
  dispatch s req =
  '(ip, s') ← allocateIP s (CHAddr req);
  reply ← sendReply s' req (if decide (t = DISCOVER) then OFFER else ACK) ip;
  Some (s', Some reply).
Proof.
  intros H Ht. unfold dispatch, sendOffer, sendACK. rewrite H. simpl.
  destruct Ht as [-> | ->]; simpl.
  - destruct (allocateIP s (CHAddr req)) as [[ip s']|]; [|done]. simpl.
    by destruct (sendReply s' req OFFER ip).
  - destruct (allocateIP s (CHAddr req)) as [[ip s']|]; [|done]. simpl.
    by destruct (sendReply s' req ACK ip).
Qed.

Lemma sendReply_inv s req msgType clientIP reply :
  sendReply s req msgType clientIP = Some reply ->
  YIAddr reply = To4 clientIP
  /\ Options reply !! OptMessageType = Some [msgType]
  /\ is_Some (subnet_broadcast (To4 (ServerIP (config s))) (SubnetMask (config s))).
Proof.
  unfold sendReply.
  destruct (subnet_broadcast _ _) as [subnet|]; [|done].
  simpl. intros [= <-]. simpl. split; [done|]. split; [by option_lookup|by eexists].
Qed.

Lemma sendReply_total s req msgType clientIP :
  is_Some (subnet_broadcast (To4 (ServerIP (config s))) (SubnetMask (config s))) ->
  is_Some (sendReply s req msgType clientIP).
Proof. intros [subnet H]. unfold sendReply. rewrite H. by eexists. Qed.

Lemma dispatch_total s pkt :
  can_serve s ->
  exists s' r,
    dispatch s pkt = Some (s', r) /\ can_serve s' /\ config s' = config s
    /\ (forall k l, leases s !! k = Some l -> leases s' !! k = Some l).
Proof.
  intros [Hc Hb].
  assert (exists s' r, dispatch s pkt = Some (s', r)
                       /\ ((s' = s) \/ exists ip, allocateIP s (CHAddr pkt) = Some (ip, s')))
    as (s' & r & Hd & Hs).
  { unfold dispatch, sendOffer, sendACK.
    destruct (default [] (Options pkt !! OptMessageType)) as [|t rest]; [by eauto|].
    destruct (allocateIP_total s (CHAddr pkt) Hc) as [[ip s1] Ha].
    assert (config s1 = config s) as Hcfg by (by eapply allocateIP_config).
    destruct (t =? DISCOVER).
    - rewrite Ha. simpl.
      destruct (sendReply_total s1 pkt OFFER ip) as [reply Hr]; [by rewrite Hcfg|].
      rewrite Hr. simpl. eauto 10.
    - destruct (t =? REQUEST); [|by eauto].
      rewrite Ha. simpl.
      destruct (sendReply_total s1 pkt ACK ip) as [reply Hr]; [by rewrite Hcfg|].
      rewrite Hr. simpl. eauto 10. }
  exists s', r. split; [done|].
  destruct Hs as [-> | [ip Ha]]; [done|].
  assert (config s' = config s) as Hcfg by (by eapply allocateIP_config).
  split; [|split; [done|]].
  - split; [by eapply allocateIP_cursor|by rewrite Hcfg].
  - intros k l. by eapply allocateIP_leases_mono.
Qed.

Lemma serve_total s data :
  can_serve s ->
  exists s' r,
    serve s data = Some (s', r) /\ can_serve s' /\ config s' = config s
    /\ (forall k l, leases s !! k = Some l -> leases s' !! k = Some l).
Proof.
  intros Hs. unfold serve. destruct (parsePacket data) as [pkt|].
  - by apply dispatch_total.
  - by exists s, None.
Qed.

Lemma serve_all_total s datagrams :
  can_serve s ->
  exists s' rs,
    serve_all s datagrams = Some (s', rs) /\ can_serve s' /\ config s' = config s
    /\ (forall k l, leases s !! k = Some l -> leases s' !! k = Some l).
Proof.
  revert s. induction datagrams as [|data rest IH]; intros s Hs.
  - by exists s, [].
  - destruct (serve_total s data Hs) as (s1 & r & H1 & Hs1 & Hcfg1 & Hl1).
    destruct (IH s1 Hs1) as (s2 & rs & H2 & Hs2 & Hcfg2 & Hl2).
    exists s2, (option_list r ++ rs). simpl. rewrite H1. simpl. rewrite H2. simpl.
    split; [done|]. split; [done|]. split; [congruence|]. eauto.
Qed.

Lemma request_after_discover s disc rest1 s1 offer between req rest2 :
  is_Some (cursor s) ->
  Options disc !! OptMessageType = Some (DISCOVER :: rest1) ->
  dispatch s disc = Some (s1, Some offer) ->
  Options req !! OptMessageType = Some (REQUEST :: rest2) ->
  CHAddr req = CHAddr disc ->
  exists s2 replies s3 ack,
    serve_all s1 between = Some (s2, replies)
    /\ dispatch s2 req = Some (s3, Some ack)
    /\ Options offer !! OptMessageType = Some [OFFER]
    /\ Options ack !! OptMessageType = Some [ACK]
    /\ YIAddr ack = YIAddr offer.
Proof.
  intros Hc Hdisc Hd Hreq Hmac.
  rewrite (dispatch_reply_type _ _ _ _ Hdisc) in Hd by (by left).
  destruct (allocateIP s (CHAddr disc)) as [[ip s1']|] eqn:Ha; [|done]. simpl in Hd.
  destruct (sendReply s1' disc _ ip) as [offer'|] eqn:Hr; [|done]. simpl in Hd.
  injection Hd as -> ->.
  simpl in Hr.
  destruct (sendReply_inv _ _ _ _ _ Hr) as (Hy & Ht & Hb).
  destruct (allocateIP_records _ _ _ _ Ha) as (l & Hl & <-).
  assert (can_serve s1) as Hs1 by (split; [by eapply allocateIP_cursor|done]).
  destruct (serve_all_total s1 between Hs1) as (s2 & replies & H2 & [Hc2 Hb2] & Hcfg2 & Hl2).
  exists s2, replies.
  rewrite (dispatch_reply_type _ _ _ _ Hreq) by (by right).
  rewrite Hmac, (allocateIP_known s2 _ l) by eauto. simpl.
  destruct (sendReply_total s2 req ACK (IP l) Hb2) as [ack Hack].
  rewrite Hack. simpl. exists s2, ack.
  destruct (sendReply_inv _ _ _ _ _ Hack) as (Hy' & Ht' & _).
  repeat split; [done..|]. congruence.
Qed.

End responder.

(** C5: from any state with a valid cursor, a run of [allocateIP] over any
    sequence of hardware addresses returns, and returns the same address at
    every position that holds the same hardware address; and once a DISCOVER
    of a client was answered with an OFFER, whatever datagrams are served in
    between, a REQUEST of the same client is answered with an ACK that
    carries the address of the OFFER. *)
Theorem allocation_idempotent (s : DHCP.Server) :
  is_Some (cursor s) ->
  (forall macs,
     exists ips s',
       DHCP.allocate_all s macs = Some (ips, s')
       /\ length ips = length macs
       /\ forall i j mac,
           macs !! i = Some mac -> macs !! j = Some mac ->
           exists ip, ips !! i = Some ip /\ ips !! j = Some ip)
  /\ (forall disc rest1 s1 offer between req rest2,
        DHCP.Options disc !! DHCP.OptMessageType = Some (DHCP.DISCOVER :: rest1) ->
        DHCP.dispatch s disc = Some (s1, Some offer) ->
        DHCP.Options req !! DHCP.OptMessageType = Some (DHCP.REQUEST :: rest2) ->
        DHCP.CHAddr req = DHCP.CHAddr disc ->
        exists s2 replies s3 ack,
          DHCP.serve_all s1 between = Some (s2, replies)
          /\ DHCP.dispatch s2 req = Some (s3, Some ack)
          /\ DHCP.Options offer !! DHCP.OptMessageType = Some [DHCP.OFFER]
          /\ DHCP.Options ack !! DHCP.OptMessageType = Some [DHCP.ACK]
          /\ DHCP.YIAddr ack = DHCP.YIAddr offer).
Proof.
  intros Hc. split.
  - intros macs.
    destruct (allocate_all_total s macs Hc) as (ips & s' & H & Hlen & _ & _).
    exists ips, s'. split; [done|]. split; [done|].
    intros i j mac. by apply (allocate_all_same _ _ _ _ _ _ _ H).
  - intros disc rest1 s1 offer between req rest2 Hdisc Hd Hreq Hmac.
    by eapply request_after_discover.
Qed.

Lemma allocation_idempotent_witness :
  (forall macs,
     exists ips s',
       DHCP.allocate_all (DHCP.NewServer default_config) macs = Some (ips, s')
       /\ length ips = length macs
       /\ forall i j mac,
           macs !! i = Some mac -> macs !! j = Some mac ->
           exists ip, ips !! i = Some ip /\ ips !! j = Some ip)
  /\ (forall disc rest1 s1 offer between req rest2,
        DHCP.Options disc !! DHCP.OptMessageType = Some (DHCP.DISCOVER :: rest1) ->
        DHCP.dispatch (DHCP.NewServer default_config) disc = Some (s1, Some offer) ->
        DHCP.Options req !! DHCP.OptMessageType = Some (DHCP.REQUEST :: rest2) ->
        DHCP.CHAddr req = DHCP.CHAddr disc ->
        exists s2 replies s3 ack,
          DHCP.serve_all s1 between = Some (s2, replies)
          /\ DHCP.dispatch s2 req = Some (s3, Some ack)
          /\ DHCP.Options offer !! DHCP.OptMessageType = Some [DHCP.OFFER]
          /\ DHCP.Options ack !! DHCP.OptMessageType = Some [DHCP.ACK]
          /\ DHCP.YIAddr ack = DHCP.YIAddr offer).
Proof.
  apply (allocation_idempotent (DHCP.NewServer default_config)).
  exists 167772260. reflexivity.
Defined.

(** ** The reply on the wire *)

Section reply_on_the_wire.

Import DHCP.

Lemma options_size_perm ord ord' : ord ≡ₚ ord' -> options_size ord = options_size ord'.
Proof. intros H. unfold options_size. by rewrite H. Qed.

Lemma length_To4 ip : (length (To4 ip) <= 4)%nat.
Proof.
  unfold To4. repeat case_decide; try (simpl; lia).
  destruct (_ && _); [|simpl; lia]. rewrite length_slice; lia.
Qed.

Lemma length_subnet_broadcast serverIP mask subnet :
  subnet_broadcast serverIP mask = Some subnet -> length subnet = 4%nat.
Proof. intros H. apply length_mapM in H. by rewrite <- H. Qed.

Lemma sendReply_options_fit s req msgType clientIP reply ord :
  sendReply s req msgType clientIP = Some reply ->
  (length (BootFile (config s)) + length (TFTPServer (config s)) <= 292)%nat ->
  range_order reply ord -> options_fit ord.
Proof.
  unfold sendReply.
  destruct (subnet_broadcast _ _) as [subnet|] eqn:Hsub; [|done].
  simpl. intros [= <-] Hlen Hord. unfold range_order in Hord. simpl in Hord.
  unfold options_fit. rewrite (options_size_perm _ _ Hord).
  apply length_subnet_broadcast in Hsub.
  pose proof (length_To4 (ServerIP (config s))) as Hs.
  pose proof (length_To4 (SubnetMask (config s))) as Hm.
  match goal with |- context [map_to_list ?m] =>
    assert (exists l, map_to_list m ≡ₚ l /\ (options_size l <= 43 + 292)%nat) as (l & Hl & Hsize)
  end.
  { eexists. split.
    - repeat (rewrite map_to_list_insert;
              [|repeat (rewrite lookup_insert_ne by (by compute)); apply lookup_empty]).
      rewrite map_to_list_empty. reflexivity.
    - unfold options_size. simpl. lia. }
  rewrite (options_size_perm _ _ Hl). lia.
Qed.


End reply_on_the_wire.



(** ** Path sanitizing *)

Section paths.

Import TFTP.

Lemma head_segment_prefix s seg rest :
  split_slash s = seg :: rest -> is_Some (strip_prefix seg s).
Proof.
  revert seg rest. induction s as [|c s IH]; intros seg rest H.
  - injection H as <- <-. by eexists.
  - simpl in H. destruct (Ascii.eqb c "/").
    + injection H as <- <-. by eexists.
    + destruct (split_slash s) as [|seg' rest'] eqn:Hs.
      * injection H as <- <-. simpl. rewrite Ascii.eqb_refl. by eexists.
      * injection H as <- <-. simpl. rewrite Ascii.eqb_refl. by eapply IH.
Qed.

Lemma Contains_tail c s sub : Contains s sub = true -> Contains (String c s) sub = true.
Proof. intros H. simpl. rewrite H. apply orb_true_r. Qed.

Lemma parent_segment_contains s :
  has_parent_segment s -> Contains s ".." = true.
Proof.
  unfold has_parent_segment. induction s as [|c s IH]; intros H.
  - simpl in H. apply list_elem_of_singleton in H. congruence.
  - simpl in H. destruct (Ascii.eqb c "/") eqn:Hc.
    + apply elem_of_cons in H as [H|H]; [congruence|]. by apply Contains_tail, IH.
    + destruct (split_slash s) as [|seg rest] eqn:Hs.
      * apply list_elem_of_singleton in H. congruence.
      * apply elem_of_cons in H as [H|H].
        -- injection H as <- <-.
           destruct (head_segment_prefix _ _ _ Hs) as [t Ht].
           destruct s as [|d s]; [simpl in Ht; congruence|]. cbn [strip_prefix] in Ht.
           destruct (Ascii.eqb "." d) eqn:Hd; [|congruence].
           apply Ascii.eqb_eq in Hd as <-. reflexivity.
        -- apply Contains_tail, IH. by right.
Qed.

End paths.

(** C8: a request whose cleaned name, less a leading slash, has a [..]
    element is dropped: the handler returns at once, having read no file and
    written no packet. *)
Theorem traversal_rejected (Clean : string → string) (Join : string → string → string)
    (ReadFile : string → option (list Z)) (s : TFTP.Server) (filename : string)
    (p : TFTP.peer) (fuel : nat) :
  has_parent_segment (TFTP.TrimPrefix (Clean filename) "/") ->
  TFTP.handleRead Clean Join ReadFile s filename p fuel = ([], true).
Proof.
  intros H. unfold TFTP.handleRead. by rewrite (parent_segment_contains _ H).
Qed.

Lemma traversal_rejected_witness :
  TFTP.handleRead TFTP.Clean_slash TFTP.Join_slash (single_file "secret" [1; 2; 3])
    {| TFTP.root := "./tftp" |} "../secret" TFTP.prompt_client 1 = ([], true).
Proof.
  apply (traversal_rejected TFTP.Clean_slash TFTP.Join_slash).
  unfold has_parent_segment. vm_compute. apply list_elem_of_here.
Defined.

(** ** The block loop *)

Section blocks.

Import TFTP.

Lemma data_packet_bytes block chunk :
  data_packet block chunk
  = BigEndian.PutUint16 opDATA ++ BigEndian.PutUint16 block ++ chunk.
Proof.
  unfold data_packet.
  set (pkt := copy_at (copy_at (make (4 + length chunk)) 0 2 (BigEndian.PutUint16 opDATA)) 2 4
                (BigEndian.PutUint16 block)).
  assert (pkt = BigEndian.PutUint16 opDATA ++ BigEndian.PutUint16 block ++ make (length chunk)) as Hpkt
    by reflexivity.
  assert (length pkt = (4 + length chunk)%nat) as Hlen.
  { rewrite Hpkt. simpl. unfold make. by rewrite length_replicate. }
  clearbody pkt.
  rewrite <- (take_ge (copy_at pkt 4 (length pkt) chunk) (4 + length chunk))
    by (rewrite length_copy_at; lia).
  rewrite take_copy_at_end by lia. by rewrite Hpkt.
Qed.

Lemma send_block_shape n pkt block p hist :
  (0 < n)%nat ->
  exists c, (1 <= c <= n)%nat /\ send_block n pkt block p hist = replicate c pkt.
Proof.
  revert hist. induction n as [|n IH]; intros hist Hn; [lia|].
  destruct n as [|n].
  - exists 1%nat. split; [lia|]. simpl. destruct (p (pkt :: hist)) as [|d]; [done|].
    by destruct (acks block d).
  - destruct (IH (pkt :: hist)) as (c & Hc & Hs); [lia|].
    cbn [send_block]. cbn [send_block] in Hs.
    destruct (p (pkt :: hist)) as [|d].
    + exists (S c). split; [lia|]. by rewrite Hs.
    + destruct (acks block d).
      * exists 1%nat. split; [lia|done].
      * exists (S c). split; [lia|]. by rewrite Hs.
Qed.

Lemma send_block_acked n block chunk p hist :
  acks_at_once p -> 0 <= block < 2 ^ 16 ->
  send_block (S n) (data_packet block chunk) block p hist = [data_packet block chunk].
Proof.
  intros Hp Hb. destruct (Hp block chunk hist Hb) as (d & Hd & Hack).
  cbn [send_block]. by rewrite Hd, Hack.
Qed.

Lemma send_block_silent n pkt block hist :
  send_block n pkt block silent_client hist = replicate n pkt.
Proof.
  revert hist. induction n as [|n IH]; intros hist; [done|].
  cbn [send_block]. unfold silent_client at 1. by rewrite IH.
Qed.

Lemma prompt_client_acks_at_once : acks_at_once prompt_client.
Proof.
  intros block chunk hist Hb. eexists. split; [reflexivity|].
  rewrite data_packet_bytes.
  change (slice (BigEndian.PutUint16 opDATA ++ BigEndian.PutUint16 block ++ chunk) 2 4)
    with (BigEndian.PutUint16 block).
  unfold acks.
  change (copy (make 4) (BigEndian.PutUint16 opACK ++ BigEndian.PutUint16 block))
    with (BigEndian.PutUint16 opACK ++ BigEndian.PutUint16 block).
  change (slice (BigEndian.PutUint16 opACK ++ BigEndian.PutUint16 block) 2 4)
    with (BigEndian.PutUint16 block).
  rewrite (Uint16_PutUint16_exact block) by done.
  by rewrite !bool_decide_true by (done || simpl; lia).
Qed.

End blocks.

Section transfers.

Import TFTP.

(** One round of the block loop, at the [j]-th block of the file. *)
Lemma transfer_round fuel data p j hist :
  1 <= j -> (j - 1) * 512 <= Z.of_nat (length data) ->
  transfer (S fuel) data p (j mod 2 ^ 16) ((j - 1) * 512) hist =
  let sent := send_block 5 (block_packet data j) (j mod 2 ^ 16) p hist in
  if decide (Z.of_nat (length data) < j * 512) then (sent, true)
  else
    let '(rest, returned) :=
      transfer fuel data p ((j + 1) mod 2 ^ 16) ((j mod 2 ^ 16) * 512) (reverse sent ++ hist) in
    (sent ++ rest, returned).
Proof.
  intros Hj Hoff. cbn [transfer]. cbv zeta. unfold blockSize.
  replace ((j - 1) * 512 + 512) with (j * 512) by lia.
  assert ((if decide (Z.of_nat (length data) < j * 512) then Z.of_nat (length data) else j * 512)
          = Z.min (j * 512) (Z.of_nat (length data))) as ->
    by (case_decide; lia).
  fold (block_chunk data j). fold (block_packet data j).
  assert (Z.of_nat (length (block_chunk data j))
          = Z.min (j * 512) (Z.of_nat (length data)) - (j - 1) * 512) as Hlen.
  { unfold block_chunk. rewrite length_slice by lia. lia. }
  rewrite Hlen.
  rewrite Zplus_mod_idemp_l.
  replace (((j + 1) mod 2 ^ 16 - 1) mod 2 ^ 16) with (j mod 2 ^ 16).
  2:{ rewrite Zminus_mod_idemp_l. f_equal. lia. }
  destruct (decide (Z.of_nat (length data) < j * 512)) as [Hshort|Hfull].
  - rewrite decide_True by lia. done.
  - rewrite decide_False by lia. done.
Qed.

Lemma transfer_blocks (m : nat) data p j hist fuel :
  1 <= j -> j + Z.of_nat m = block_count data -> block_count data <= 65536 ->
  (m < fuel)%nat ->
  exists counts,
    length counts = S m
    /\ Forall (λ c, 1 <= c <= 5)%nat counts
    /\ (acks_at_once p -> counts = replicate (S m) 1%nat)
    /\ transfer fuel data p (j mod 2 ^ 16) ((j - 1) * 512) hist
       = (concat (zip_with replicate counts (block_packet data <$> seqZ j (Z.of_nat (S m)))), true).
Proof.
  revert j hist fuel. induction m as [|m IH]; intros j hist fuel Hj Hm Hmax Hfuel.
  - destruct fuel as [|fuel]; [lia|].
    unfold block_count in *.
    pose proof (Z.div_mod (Z.of_nat (length data)) 512 ltac:(lia)) as Hdm.
    pose proof (Z.mod_pos_bound (Z.of_nat (length data)) 512 ltac:(lia)) as Hmb.
    rewrite transfer_round by lia. cbv zeta. rewrite decide_True by lia.
    destruct (send_block_shape 5 (block_packet data j) (j mod 2 ^ 16) p hist) as (c & Hc & Hs); [lia|].
    exists [c]. split; [done|]. split; [by constructor|]. split.
    + intros Hp. unfold block_packet in Hs. rewrite send_block_acked in Hs; [|done|by apply Z.mod_pos_bound].
      by destruct c as [|[|c]].
    + rewrite Hs. rewrite seqZ_cons by lia. rewrite seqZ_nil by lia. simpl. by rewrite app_nil_r.
  - destruct fuel as [|fuel]; [lia|].
    unfold block_count in *.
    pose proof (Z.div_mod (Z.of_nat (length data)) 512 ltac:(lia)) as Hdm.
    pose proof (Z.mod_pos_bound (Z.of_nat (length data)) 512 ltac:(lia)) as Hmb.
    rewrite transfer_round by lia. cbv zeta. rewrite decide_False by lia.
    destruct (send_block_shape 5 (block_packet data j) (j mod 2 ^ 16) p hist) as (c & Hc & Hs); [lia|].
    replace ((j mod 2 ^ 16) * 512) with ((j + 1 - 1) * 512) by (rewrite Z.mod_small; lia).
    destruct (IH (j + 1) (reverse (send_block 5 (block_packet data j) (j mod 2 ^ 16) p hist) ++ hist) fuel)
      as (counts & Hlen & Hall & Hone & Ht); try lia.
    rewrite Ht. exists (c :: counts). split; [simpl; lia|]. split; [by constructor|]. split.
    + intros Hp. rewrite (Hone Hp).
      unfold block_packet in Hs. rewrite send_block_acked in Hs; [|done|by apply Z.mod_pos_bound].
      by destruct c as [|[|c]].
    + rewrite Hs. rewrite (seqZ_cons j) by lia.
      replace (Z.succ j) with (j + 1) by lia.
      replace (Z.pred (Z.of_nat (S (S m)))) with (Z.of_nat (S m)) by lia.
      done.
Qed.

End transfers.

Section wrap_around.

Import TFTP.



(** On a file of 65536 full blocks or more the loop goes round: every block
    it sends is one of the first 65536, and it does not return. *)
Lemma transfer_wraps fuel data p j hist :
  512 * 65536 <= Z.of_nat (length data) -> 1 <= j <= 65536 ->
  exists out,
    transfer fuel data p (j mod 2 ^ 16) ((j - 1) * 512) hist = (out, false)
    /\ Forall (λ pkt, exists k, 1 <= k <= 65536 /\ pkt = block_packet data k) out.
Proof.
  intros Hbig. revert j hist. induction fuel as [|fuel IH]; intros j hist Hj.
  - exists []. split; [done|constructor].
  - rewrite transfer_round by lia. cbv zeta. rewrite decide_False by lia.
    destruct (send_block_shape 5 (block_packet data j) (j mod 2 ^ 16) p hist) as (c & Hc & Hs); [lia|].
    rewrite Hs.
    assert (exists j', 1 <= j' <= 65536 /\ (j + 1) mod 2 ^ 16 = j' mod 2 ^ 16
                       /\ (j mod 2 ^ 16) * 512 = (j' - 1) * 512) as (j' & Hj' & Hb & Ho).
    { destruct (decide (j = 65536)) as [->|Hne].
      - exists 1. split; [lia|]. split; reflexivity.
      - exists (j + 1). split; [lia|]. split; [done|]. rewrite Z.mod_small; lia. }
    rewrite Hb, Ho.
    destruct (IH j' (reverse (replicate c (block_packet data j)) ++ hist) Hj') as (out & Ht & Hall).
    rewrite Ht. eexists. split; [done|].
    apply Forall_app. split; [|done].
    apply Forall_replicate. by exists j.
Qed.

Lemma concat_replicate_once {A} (l : list A) :
  concat (zip_with replicate (replicate (length l) 1%nat) l) = l.
Proof. induction l as [|x l IH]; [done|]. simpl. by rewrite IH. Qed.

End wrap_around.

(** ** Read requests *)

(** C1, at the failing input: a file of 600 bytes and a peer that never
    answers. After the five attempts at block 1 the loop goes on to block 2
    and sends it five times as well. *)
Theorem exhausted_retries_next_block :
  TFTP.handleRead TFTP.Clean_slash TFTP.Join_slash (single_file "tftp/f" (replicate 600 7))
    {| TFTP.root := "./tftp" |} "f" TFTP.silent_client 2
  = (TFTP.FileAccess "tftp/f"
       :: (TFTP.Sent <$> (replicate 5 (TFTP.data_packet 1 (replicate 512 7))
                          ++ replicate 5 (TFTP.data_packet 2 (replicate 88 7)))),
     true).
Proof. vm_compute. reflexivity. Qed.

(** ** The 16-bit block counter *)

(** C10, as the code has it: block j of the file goes out under the number
    j modulo 2^16, so the block after number 65535 has number 0, and its
    offset, computed from the wrapped counter, is 512 * 65535. A file of
    512 * 65535 bytes or more, and less than 512 * 65536, ends with that
    block: the loop returns after it. On a file of 512 * 65536 bytes or more
    the block after it is block 1 again, from offset 0: whatever the peer
    does, every packet is one of the first 65536 full blocks, no byte from
    offset 512 * 65536 on is sent, and the loop does not return. *)
Theorem block_counter_wraps (data : list Z) (p : TFTP.peer) :
  512 * 65535 <= Z.of_nat (length data) ->
  (Z.of_nat (length data) < 512 * 65536 ->
   forall fuel, 65536 <= Z.of_nat fuel ->
     exists counts,
       Z.of_nat (length counts) = 65536
       /\ Forall (λ c, 1 <= c <= 5)%nat counts
       /\ (acks_at_once p -> Forall (λ c, c = 1%nat) counts)
       /\ TFTP.transfer fuel data p 1 0 []
          = (concat (zip_with replicate counts (block_packet data <$> seqZ 1 65536)), true)
       /\ block_packet data 65536
          = TFTP.data_packet 0 (slice data (Z.to_nat (512 * 65535)) (length data)))
  /\ (512 * 65536 <= Z.of_nat (length data) ->
      forall fuel,
        exists out,
          TFTP.transfer fuel data p 1 0 [] = (out, false)
          /\ Forall (λ pkt, exists k,
                       1 <= k <= 65536
                       /\ pkt = TFTP.data_packet (k mod 2 ^ 16)
                                  (slice data (Z.to_nat ((k - 1) * 512)) (Z.to_nat (k * 512))))
               out).
Proof.
  intros Hmin. split.
  - intros Hmax fuel Hfuel.
    assert (block_count data = 65536) as Hn.
    { unfold block_count.
      assert (Z.of_nat (length data) / 512 = 65535); [|lia].
      symmetry. apply Z.div_unique with (r := Z.of_nat (length data) - 512 * 65535); lia. }
    destruct (transfer_blocks (Z.to_nat 65535) data p 1 [] fuel)
      as (counts & Hlen & Hall & Hone & Ht); try lia.
    exists counts. split; [lia|]. split; [done|]. split.
    { intros Hp. rewrite (Hone Hp). by apply Forall_replicate. }
    split.
    + change (1 mod 2 ^ 16) with 1 in Ht. change ((1 - 1) * 512) with 0 in Ht.
      rewrite Ht. do 4 f_equal; try lia.
    + unfold block_packet, block_chunk. f_equal. f_equal; lia.
  - intros Hbig fuel.
    destruct (transfer_wraps fuel data p 1 [] Hbig) as (out & Ht & Hall); [lia|].
    exists out. split; [exact Ht|].
    eapply Forall_impl; [exact Hall|]. simpl.
    intros pkt (k & Hk & ->). exists k. split; [done|].
    unfold block_packet, block_chunk. do 3 f_equal. lia.
Qed.

Lemma length_wrapping_file : Z.of_nat (length wrapping_file) = 33553922.
Proof. unfold wrapping_file. rewrite length_replicate. lia. Qed.

Lemma block_counter_wraps_witness :
  (Z.of_nat (length wrapping_file) < 512 * 65536 ->
   forall fuel, 65536 <= Z.of_nat fuel ->
     exists counts,
       Z.of_nat (length counts) = 65536
       /\ Forall (λ c, 1 <= c <= 5)%nat counts
       /\ (acks_at_once TFTP.prompt_client -> Forall (λ c, c = 1%nat) counts)
       /\ TFTP.transfer fuel wrapping_file TFTP.prompt_client 1 0 []
          = (concat (zip_with replicate counts (block_packet wrapping_file <$> seqZ 1 65536)), true)
       /\ block_packet wrapping_file 65536
          = TFTP.data_packet 0 (slice wrapping_file (Z.to_nat (512 * 65535)) (length wrapping_file)))
  /\ (512 * 65536 <= Z.of_nat (length wrapping_file) ->
      forall fuel,
        exists out,
          TFTP.transfer fuel wrapping_file TFTP.prompt_client 1 0 [] = (out, false)
          /\ Forall (λ pkt, exists k,
                       1 <= k <= 65536
                       /\ pkt = TFTP.data_packet (k mod 2 ^ 16)
                                  (slice wrapping_file (Z.to_nat ((k - 1) * 512)) (Z.to_nat (k * 512))))
               out).
Proof.
  apply (block_counter_wraps wrapping_file TFTP.prompt_client).
  rewrite length_wrapping_file. lia.
Defined.

(** C10 as stated fails on a file of 512 * 65535 + 2 bytes: with a peer that
    acknowledges every block, the loop returns, and the last packet it sent
    is the final short block, under the number 0, with the two bytes of the
    file at the offsets 512 * 65535 and 512 * 65535 + 1. *)
Lemma wrapping_file_completes :
  512 * 65535 + 1 <= Z.of_nat (length wrapping_file)
  /\ exists out,
       TFTP.transfer (Z.to_nat 65536) wrapping_file TFTP.prompt_client 1 0 [] = (out, true)
       /\ last out = Some (TFTP.data_packet 0 [7; 7]).
Proof.
  split; [rewrite length_wrapping_file; lia|].
  assert (block_count wrapping_file = 65536) as Hn.
  { unfold block_count. rewrite length_wrapping_file. reflexivity. }
  destruct (transfer_blocks (Z.to_nat 65535) wrapping_file TFTP.prompt_client 1 [] (Z.to_nat 65536))
    as (counts & Hlen & _ & Hone & Ht); try lia.
  change (1 mod 2 ^ 16) with 1 in Ht. change ((1 - 1) * 512) with 0 in Ht.
  eexists. split; [exact Ht|].
  rewrite (Hone prompt_client_acks_at_once).
  replace (Z.of_nat (S (Z.to_nat 65535))) with (65535 + 1) by lia.
  rewrite seqZ_app by lia. rewrite fmap_app.
  rewrite (seqZ_cons (1 + 65535)) by lia. rewrite (seqZ_nil (Z.succ (1 + 65535))) by lia.
  change (1 + 65535) with 65536.
  set (front := block_packet wrapping_file <$> seqZ 1 65535).
  assert (length front = Z.to_nat 65535) as Hfront
    by (subst front; by rewrite length_fmap, length_seqZ).
  clearbody front.
  change (block_packet wrapping_file <$> [65536]) with [block_packet wrapping_file 65536].
  assert (S (Z.to_nat 65535) = length (front ++ [block_packet wrapping_file 65536])) as ->
    by (rewrite length_app, Hfront; cbn [length]; lia).
  rewrite concat_replicate_once.
  rewrite last_snoc. apply (f_equal Some).
  unfold block_packet. change (65536 mod 2 ^ 16) with 0.
  apply (f_equal (TFTP.data_packet 0)).
  unfold block_chunk. rewrite length_wrapping_file.
  change (Z.min (65536 * 512) 33553922) with 33553922.
  change ((65536 - 1) * 512) with 33553920.
  unfold slice, wrapping_file. rewrite drop_replicate, take_replicate.
  rewrite Nat.min_id, <- Z2Nat.inj_sub by lia.
  reflexivity.
Qed.

(** ** The front end of the TFTP server *)

Section front_end.

Import TFTP.

Lemma Uint16_is_one b0 b1 :
  is_byte b0 -> is_byte b1 ->
  (BigEndian.Uint16 [b0; b1] = Some 1 <-> b0 = 0 /\ b1 = 1).
Proof.
  intros H0 H1. rewrite Uint16_val by done. unfold is_byte in *.
  split; [intros [= H]; lia|intros [-> ->]; done].
Qed.

Lemma string_of_bytes_of_string s : string_of_bytes (bytes_of_string s) = s.
Proof.
  unfold string_of_bytes, bytes_of_string. rewrite <- list_fmap_compose.
  rewrite <- (string_of_list_ascii_of_string s) at 2. f_equal.
  induction (list_ascii_of_string s) as [|c l IH]; [done|].
  cbn [fmap list_fmap compose]. unfold compose at 1.
  rewrite Nat2Z.id, ascii_nat_embedding. f_equal. exact IH.
Qed.

Lemma length_bytes_of_string s : length (bytes_of_string s) = String.length s.
Proof.
  unfold bytes_of_string. rewrite length_fmap.
  induction s as [|c s IH]; [done|]. simpl. by rewrite IH.
Qed.


Lemma name_end_app name rest :
  Forall (λ b, b ≠ 0) name -> rest = [] \/ head rest = Some 0 ->
  name_end (name ++ rest) = length name.
Proof.
  intros Hname Hrest. induction Hname as [|b name Hb Hname IH].
  - destruct Hrest as [->|Hrest]; [done|]. destruct rest as [|r rest]; [done|].
    injection Hrest as ->. done.
  - cbn [app name_end length]. apply Z.eqb_neq in Hb. by rewrite Hb, IH.
Qed.


End front_end.

(** X1: the TFTP front end starts a handler for a datagram exactly when it
    has four bytes or more and the opcode 1 of a read request. Anything
    else, a write request, a stray ACK or an ERROR say, is dropped: no file
    is read and no packet is written, not even an error packet. *)
Theorem only_read_requests_served (Clean : string → string) (Join : string → string → string)
    (ReadFile : string → option (list Z)) (s : TFTP.Server) (dgram : list Z)
    (p : TFTP.peer) (fuel : nat) :
  bytes dgram ->
  (TFTP.rrq_filename dgram = None <-> (length dgram < 4)%nat \/ take 2 dgram ≠ [0; 1])
  /\ (TFTP.rrq_filename dgram = None ->
      TFTP.serve Clean Join ReadFile s dgram p fuel = ([], true)).
Proof.
  intros Hb. split.
  - unfold TFTP.rrq_filename. destruct (decide (length dgram < 4)%nat) as [Hshort|Hlong].
    { split; [by left|done]. }
    destruct dgram as [|b0 [|b1 dgram]]; try (simpl in Hlong; lia).
    pose proof (Forall_inv Hb) as H0. pose proof (Forall_inv (Forall_inv_tail Hb)) as H1.
    change (slice (b0 :: b1 :: dgram) 0 2) with [b0; b1].
    change (take 2 (b0 :: b1 :: dgram)) with [b0; b1].
    pose proof (Uint16_is_one b0 b1 H0 H1) as Hone.
    rewrite (Uint16_val b0 b1 []) in * by done.
    change TFTP.opRRQ with 1.
    destruct (decide (b0 * 256 + b1 = 1)) as [He|Hne].
    + rewrite He. simpl. split; [done|]. intros [H|H]; [simpl in Hlong; lia|].
      destruct Hone as [Hone _]. destruct Hone as [-> ->]; [by rewrite He|done].
    + apply Z.eqb_neq in Hne as Hne'. rewrite Hne'. split; [|done]. intros _. right.
      intros [= -> ->]. by apply Hne.
  - intros Hnone. unfold TFTP.serve. by rewrite Hnone.
Qed.

Lemma only_read_requests_served_witness :
  TFTP.serve TFTP.Clean_slash TFTP.Join_slash (single_file "tftp/f" [1; 2; 3])
    {| TFTP.root := "./tftp" |} ([0; 2; 102; 0] ++ bytes_of_string "octet" ++ [0])
    TFTP.prompt_client 1 = ([], true).
Proof.
  apply (only_read_requests_served TFTP.Clean_slash TFTP.Join_slash).
  - compute_done.
  - reflexivity.
Defined.

(** X2: the name of a read request is what stands between the opcode and
    the first zero byte, or the end of the datagram when there is none.
    What follows the zero, the transfer mode and the options of the client,
    is never looked at. *)
Theorem rrq_filename_name (name : string) (rest : list Z) :
  Forall (λ b, b ≠ 0) (bytes_of_string name) ->
  rest = [] \/ head rest = Some 0 ->
  (2 <= String.length name + length rest)%nat ->
  TFTP.rrq_filename ([0; 1] ++ bytes_of_string name ++ rest) = Some name.
Proof.
  intros Hname Hrest Hlen. unfold TFTP.rrq_filename.
  rewrite decide_False.
  2:{ rewrite !length_app, length_bytes_of_string. simpl. lia. }
  change (slice ([0; 1] ++ bytes_of_string name ++ rest) 0 2) with [0; 1].
  change (BigEndian.Uint16 [0; 1]) with (Some 1). change (1 =? TFTP.opRRQ) with true.
  cbv iota. f_equal.
  assert (slice ([0; 1] ++ bytes_of_string name ++ rest) 2
            (length ([0; 1] ++ bytes_of_string name ++ rest))
          = bytes_of_string name ++ rest) as ->.
  { unfold slice. change (drop 2 ([0; 1] ++ ?l)) with l. apply take_ge.
    rewrite !length_app. simpl. lia. }
  rewrite name_end_app by done.
  rewrite slice_0, take_app_length. apply string_of_bytes_of_string.
Qed.

Lemma rrq_filename_name_witness :
  TFTP.rrq_filename ([0; 1] ++ bytes_of_string "pxelinux.0" ++ 0 :: bytes_of_string "octet" ++ [0])
  = Some "pxelinux.0"%string.
Proof.
  apply (rrq_filename_name "pxelinux.0" (0 :: bytes_of_string "octet" ++ [0])).
  - compute_done.
  - right. reflexivity.
  - vm_compute. lia.
Defined.



(** ** The retry loop *)

Section retries.

Import TFTP.

Lemma Uint16_is_four b0 b1 :
  is_byte b0 -> is_byte b1 ->
  (BigEndian.Uint16 [b0; b1] = Some 4 <-> b0 = 0 /\ b1 = 4).
Proof.
  intros H0 H1. rewrite Uint16_val by done. unfold is_byte in *.
  split; [intros [= H]; lia|intros [-> ->]; done].
Qed.

Lemma acks_short block d : (length d < 4)%nat -> acks block d = false.
Proof.
  intros H. unfold acks. rewrite (bool_decide_false (4 <= _)%nat) by lia. done.
Qed.

Lemma acks_four block b0 b1 b2 b3 rest :
  acks block (b0 :: b1 :: b2 :: b3 :: rest)
  = bool_decide (BigEndian.Uint16 [b0; b1] = Some opACK)
    && bool_decide (BigEndian.Uint16 [b2; b3] = Some block).
Proof. unfold acks. rewrite (bool_decide_true (4 <= _)%nat) by (simpl; lia). done. Qed.

Lemma send_block_step n pkt block p hist :
  send_block (S n) pkt block p hist
  = if acknowledges block (p (pkt :: hist)) then [pkt]
    else pkt :: send_block n pkt block p (pkt :: hist).
Proof.
  cbn [send_block]. unfold acknowledges. destruct (p (pkt :: hist)) as [|d]; [done|].
  by destruct (acks block d).
Qed.

Lemma replicate_S_app {A} n (x : A) l : replicate (S n) x ++ x :: l = replicate (S (S n)) x ++ l.
Proof.
  induction n as [|n IH]; [done|].
  change (replicate (S (S n)) x) with (x :: replicate (S n) x).
  rewrite <- app_comm_cons, IH. done.
Qed.

Lemma send_block_count n k pkt block p hist :
  (k < n)%nat ->
  (forall j, (j < k)%nat -> acknowledges block (p (replicate (S j) pkt ++ hist)) = false) ->
  acknowledges block (p (replicate (S k) pkt ++ hist)) = true ->
  send_block n pkt block p hist = replicate (S k) pkt.
Proof.
  revert k hist. induction n as [|n IH]; intros k hist Hk Hno Hyes; [lia|].
  rewrite send_block_step. destruct k as [|k].
  - change (replicate 1 pkt ++ hist) with (pkt :: hist) in Hyes. by rewrite Hyes.
  - rewrite (Hno 0%nat ltac:(lia) : acknowledges block (p (pkt :: hist)) = false).
    rewrite (IH k (pkt :: hist)); [done|lia| |].
    + intros j Hj. rewrite replicate_S_app. apply Hno. lia.
    + by rewrite replicate_S_app.
Qed.

Lemma send_block_unacknowledged n pkt block p hist :
  (forall j, (j < n)%nat -> acknowledges block (p (replicate (S j) pkt ++ hist)) = false) ->
  send_block n pkt block p hist = replicate n pkt.
Proof.
  revert hist. induction n as [|n IH]; intros hist Hno; [done|].
  rewrite send_block_step.
  rewrite (Hno 0%nat ltac:(lia) : acknowledges block (p (pkt :: hist)) = false).
  rewrite IH; [done|]. intros j Hj. rewrite replicate_S_app. apply Hno. lia.
Qed.

End retries.

(** X4: the retry loop takes a datagram for the acknowledgement of a block
    exactly when its first four bytes are the opcode 4 and the number of
    that block, high byte first. A shorter datagram is none, and bytes after
    the fourth are not looked at. *)
Theorem acks_iff (block : Z) (dgram : list Z) :
  bytes dgram -> 0 <= block < 2 ^ 16 ->
  (TFTP.acks block dgram = true <-> take 4 dgram = [0; 4] ++ BigEndian.PutUint16 block).
Proof.
  intros Hb Hblock.
  destruct (decide (length dgram < 4)%nat) as [Hshort|Hlong].
  { rewrite acks_short by done. split; [done|]. intros H.
    apply (f_equal length) in H. rewrite length_take in H. change (length ([0; 4] ++ BigEndian.PutUint16 block)) with 4%nat in H. lia. }
  destruct dgram as [|b0 [|b1 [|b2 [|b3 rest]]]]; try (simpl in Hlong; lia).
  inversion_clear Hb as [|? ? H0 Hb']. inversion_clear Hb' as [|? ? H1 Hb].
  inversion_clear Hb as [|? ? H2 Hb']. inversion_clear Hb' as [|? ? H3 _].
  rewrite acks_four. change (take 4 (b0 :: b1 :: b2 :: b3 :: rest)) with [b0; b1; b2; b3].
  change TFTP.opACK with 4.
  rewrite andb_true_iff, !bool_decide_eq_true, (Uint16_is_four b0 b1 H0 H1).
  split.
  - intros [[-> ->] Hv]. by rewrite (PutUint16_Uint16 b2 b3 block H2 H3 Hv).
  - intros [= -> -> H23]. split; [done|].
    change [b2; b3] with ([b2; b3] ++ []) in H23 |- *. cbn [app] in H23.
    assert ([b2; b3] = BigEndian.PutUint16 block) as -> by (unfold BigEndian.PutUint16; congruence).
    apply Uint16_PutUint16_exact. lia.
Qed.

Lemma acks_iff_witness :
  TFTP.acks 258 [0; 4; 1; 2; 9; 9] = true <-> take 4 [0; 4; 1; 2; 9; 9] = [0; 4] ++ BigEndian.PutUint16 258.
Proof. apply (acks_iff 258 [0; 4; 1; 2; 9; 9]); [compute_done|lia]. Defined.

(** X5: the retry loop writes the packet, reads, and writes it again for as
    long as the read fails or gives something other than the ACK of the
    block: a stale or malformed answer costs an attempt exactly as a timeout
    does. When the first ACK of the block comes after the attempt k + 1, of
    at most five, the packet has been written k + 1 times; when none comes in
    five attempts it has been written five times. *)
Theorem send_block_attempts (pkt : list Z) (block : Z) (p : TFTP.peer) (hist : list (list Z)) :
  (forall k,
     (k < 5)%nat ->
     (forall j, (j < k)%nat -> acknowledges block (p (replicate (S j) pkt ++ hist)) = false) ->
     acknowledges block (p (replicate (S k) pkt ++ hist)) = true ->
     TFTP.send_block 5 pkt block p hist = replicate (S k) pkt)
  /\ ((forall j, (j < 5)%nat -> acknowledges block (p (replicate (S j) pkt ++ hist)) = false) ->
      TFTP.send_block 5 pkt block p hist = replicate 5 pkt).
Proof.
  split.
  - intros k Hk Hno Hyes. by apply send_block_count.
  - apply send_block_unacknowledged.
Qed.

Lemma send_block_attempts_witness :
  TFTP.send_block 5 [0; 3; 0; 7] 7
    (λ hist, if decide (length hist = 3%nat) then TFTP.ReadOk [0; 4; 0; 7]
             else TFTP.ReadOk [0; 4; 0; 6]) []
  = replicate 3 [0; 3; 0; 7].
Proof.
  apply (proj1 (send_block_attempts [0; 3; 0; 7] 7 _ []) 2%nat).
  - lia.
  - intros j Hj. destruct j as [|[|j]]; [reflexivity|reflexivity|lia].
  - reflexivity.
Defined.

(** ** What a transfer puts on the wire *)

Section wire.

Import TFTP.

Lemma length_block_chunk_le data j : (length (block_chunk data j) <= 512)%nat.
Proof.
  unfold block_chunk, slice. rewrite length_take. lia.
Qed.

Lemma block_chunk_take_drop data j :
  1 <= j -> block_chunk data j = take 512 (drop (Z.to_nat ((j - 1) * 512)) data).
Proof.
  intros Hj. unfold block_chunk, slice.
  destruct (decide (j * 512 <= Z.of_nat (length data))) as [Hfull|Hshort].
  - f_equal. lia.
  - rewrite !take_ge; [done|rewrite length_drop; lia|rewrite length_drop; lia].
Qed.



(** Every packet of the block loop is one of the first 65536 blocks of the
    file, whatever the file, the peer and the number of rounds. *)
Lemma transfer_sends_blocks fuel data p j hist :
  1 <= j <= 65536 -> (j - 1) * 512 <= Z.of_nat (length data) ->
  Forall (λ pkt, exists k, 1 <= k <= 65536 /\ (k - 1) * 512 <= Z.of_nat (length data)
                           /\ pkt = block_packet data k)
    (transfer fuel data p (j mod 2 ^ 16) ((j - 1) * 512) hist).1.
Proof.
  revert j hist. induction fuel as [|fuel IH]; intros j hist Hj Hoff; [constructor|].
  rewrite transfer_round by lia. cbv zeta.
  destruct (send_block_shape 5 (block_packet data j) (j mod 2 ^ 16) p hist) as (c & Hc & Hs); [lia|].
  rewrite Hs.
  assert (Forall (λ pkt, exists k, 1 <= k <= 65536 /\ (k - 1) * 512 <= Z.of_nat (length data)
                                   /\ pkt = block_packet data k)
            (replicate c (block_packet data j))) as Hsent
    by (apply Forall_replicate; by exists j).
  case_decide as Hlast; [done|].
  assert (exists j', 1 <= j' <= 65536 /\ (j + 1) mod 2 ^ 16 = j' mod 2 ^ 16
                     /\ (j mod 2 ^ 16) * 512 = (j' - 1) * 512
                     /\ (j' - 1) * 512 <= Z.of_nat (length data)) as (j' & Hj' & Hb & Ho & Hoff').
  { destruct (decide (j = 65536)) as [->|Hne].
    - exists 1. split; [lia|]. split; [reflexivity|]. split; [reflexivity|lia].
    - exists (j + 1). split; [lia|]. split; [done|]. rewrite Z.mod_small by lia. lia. }
  rewrite Hb, Ho.
  specialize (IH j' (reverse (replicate c (block_packet data j)) ++ hist) Hj' Hoff').
  destruct (transfer fuel data p (j' mod 2 ^ 16) ((j' - 1) * 512)
              (reverse (replicate c (block_packet data j)) ++ hist)) as [rest returned].
  simpl in *. by apply Forall_app.
Qed.

End wire.



(** X7: whatever the file, the peer and the time it runs, the block loop
    writes nothing but DATA packets that carry a piece of the file: the
    opcode 3, a block number, and at most 512 bytes that stand in the file
    at a multiple of 512 below 512 * 65536. *)
Theorem transfer_sends_file_pieces (data : list Z) (p : TFTP.peer) (fuel : nat) :
  Forall (λ pkt, exists k,
            1 <= k <= 65536
            /\ pkt = [0; 3] ++ BigEndian.PutUint16 (k mod 2 ^ 16)
                     ++ take 512 (drop (Z.to_nat ((k - 1) * 512)) data)
            /\ (4 <= length pkt <= 516)%nat)
    (TFTP.transfer fuel data p 1 0 []).1.
Proof.
  pose proof (transfer_sends_blocks fuel data p 1 [] ltac:(lia) ltac:(lia)) as H.
  change (1 mod 2 ^ 16) with 1 in H. change ((1 - 1) * 512) with 0 in H.
  eapply Forall_impl; [exact H|]. simpl. intros pkt (k & Hk & Hoff & ->).
  exists k. split; [done|].
  unfold block_packet. rewrite data_packet_bytes, block_chunk_take_drop by lia.
  split; [done|].
  rewrite !length_app, length_take.
  change (length (BigEndian.PutUint16 TFTP.opDATA)) with 2%nat.
  change (length (BigEndian.PutUint16 (k mod 2 ^ 16))) with 2%nat. lia.
Qed.

(** ** The option loop of [parsePacket], step by step *)

Section option_loop.

Import DHCP.

Lemma parse_options_at_end fuel pre junk opts :
  parse_options fuel (pre ++ 255 :: junk) (length pre) opts = opts.
Proof.
  destruct fuel as [|fuel]; [done|]. cbn [parse_options].
  rewrite decide_True by (rewrite length_app; simpl; lia).
  cbv zeta. by rewrite list_lookup_total_middle.
Qed.

Lemma parse_options_at_eof fuel pre opts :
  parse_options fuel pre (length pre) opts = opts.
Proof.
  destruct fuel as [|fuel]; [done|]. cbn [parse_options].
  by rewrite decide_False by lia.
Qed.

Lemma parse_options_pad fuel pre rest opts :
  parse_options (S fuel) (pre ++ 0 :: rest) (length pre) opts
  = parse_options fuel ((pre ++ [0]) ++ rest) (length (pre ++ [0])) opts.
Proof.
  cbn [parse_options].
  rewrite decide_True by (rewrite length_app; simpl; lia).
  cbv zeta. rewrite list_lookup_total_middle by done.
  change (0 =? OptEnd) with false. change (0 =? 0) with true. cbv iota.
  rewrite <- app_assoc, length_app. done.
Qed.

Lemma parse_options_option fuel pre k v rest opts :
  plain_option (k, v) ->
  parse_options (S fuel) (pre ++ encode_option (k, v) ++ rest) (length pre) opts
  = parse_options fuel ((pre ++ encode_option (k, v)) ++ rest)
      (length (pre ++ encode_option (k, v))) (<[k := v]> opts).
Proof.
  intros (Hk0 & Hk255 & Hlen). simpl in Hk0, Hk255, Hlen.
  unfold encode_option. cbn [fst snd].
  set (lb := to_byte (Z.of_nat (length v))).
  assert (Z.to_nat lb = length v) as Hlb.
  { subst lb. unfold to_byte. rewrite Z.mod_small by lia. lia. }
  set (data := pre ++ (k :: lb :: v) ++ rest).
  assert (data = (pre ++ k :: lb :: v) ++ rest) as Hdata
    by (subst data; by rewrite <- !app_assoc).
  assert (length data = (length pre + 2 + length v + length rest)%nat) as Hlength
    by (subst data; repeat (rewrite ?length_app; simpl); lia).
  assert (data !!! length pre = k) as Hk
    by (subst data; simpl; by rewrite list_lookup_total_middle).
  assert (data !!! (length pre + 1)%nat = lb) as Hl.
  { subst data. rewrite lookup_total_app_r by lia.
    replace (length pre + 1 - length pre)%nat with 1%nat by lia. done. }
  assert (slice data (length pre + 2) (length pre + 2 + length v) = v) as Hv.
  { subst data. replace (pre ++ (k :: lb :: v) ++ rest)
      with ((pre ++ [k; lb]) ++ v ++ rest)
      by (rewrite <- !app_assoc; done).
    apply slice_app_mid; rewrite ?length_app; simpl; lia. }
  clearbody data lb.
  cbn [parse_options].
  rewrite decide_True by lia. cbv zeta. rewrite Hk.
  rewrite (proj2 (Z.eqb_neq k OptEnd)) by done.
  rewrite (proj2 (Z.eqb_neq k 0)) by done.
  rewrite decide_False by lia. rewrite Hl, Hlb.
  rewrite decide_False by lia. rewrite Hv.
  rewrite copy_exact by (unfold make; by rewrite length_replicate).
  rewrite Hdata.
  replace (length pre + 2 + length v)%nat with (length (pre ++ k :: lb :: v))
    by (rewrite length_app; simpl; lia).
  done.
Qed.

Lemma parse_options_cut fuel pre t opts :
  cut_option t -> parse_options fuel (pre ++ t) (length pre) opts = opts.
Proof.
  intros Hcut. destruct t as [|k t].
  { rewrite app_nil_r. apply parse_options_at_eof. }
  destruct Hcut as (Hk0 & Hk255 & Hcut).
  destruct fuel as [|fuel]; [done|]. cbn [parse_options].
  rewrite decide_True by (rewrite length_app; simpl; lia).
  cbv zeta. rewrite list_lookup_total_middle by done.
  rewrite (proj2 (Z.eqb_neq k OptEnd)) by done.
  rewrite (proj2 (Z.eqb_neq k 0)) by done.
  destruct t as [|lb v].
  { by rewrite decide_True by (rewrite length_app; simpl; lia). }
  rewrite decide_False by (rewrite length_app; simpl; lia).
  assert ((pre ++ k :: lb :: v) !!! (length pre + 1)%nat = lb) as ->.
  { rewrite lookup_total_app_r by lia.
    replace (length pre + 1 - length pre)%nat with 1%nat by lia. done. }
  by rewrite decide_True by (rewrite length_app; simpl; lia).
Qed.

(** The loop over the fields of the options area, then whatever ends it. *)
Lemma parse_options_fields fs pre rest opts fuel final :
  Forall plain_option (field_options fs) -> (length fs <= fuel)%nat ->
  (forall fuel' pre', parse_options fuel' (pre' ++ rest) (length pre') final = final) ->
  final = foldl insert_option opts (field_options fs) ->
  parse_options fuel (pre ++ flat_map encode_field fs ++ rest) (length pre) opts = final.
Proof.
  revert pre opts fuel. induction fs as [|f fs IH]; intros pre opts fuel Hp Hf Hrest Hfinal.
  - simpl in *. subst final. apply Hrest.
  - destruct fuel as [|fuel]; [simpl in Hf; lia|].
    change (flat_map encode_field (f :: fs)) with (encode_field f ++ flat_map encode_field fs).
    rewrite <- app_assoc. destruct f as [|[k v]].
    + change (encode_field PadField ++ ?l) with (0 :: l).
      rewrite parse_options_pad. rewrite <- app_assoc.
      change ([0] ++ ?l) with (0 :: l).
      replace (pre ++ 0 :: flat_map encode_field fs ++ rest)
        with ((pre ++ [0]) ++ flat_map encode_field fs ++ rest) by (by rewrite <- app_assoc).
      apply IH; [done|simpl in Hf; lia|done|done].
    + change (field_options (OptionField (k, v) :: fs)) with ((k, v) :: field_options fs) in *.
      apply Forall_cons in Hp as [Hkv Hp].
      change (encode_field (OptionField (k, v))) with (encode_option (k, v)).
      rewrite parse_options_option by done.
      rewrite <- app_assoc.
      replace (pre ++ encode_option (k, v) ++ flat_map encode_field fs ++ rest)
        with ((pre ++ encode_option (k, v)) ++ flat_map encode_field fs ++ rest)
        by (by rewrite <- app_assoc).
      apply IH; [done|simpl in Hf; lia|done|done].
Qed.

Lemma length_flat_map_encode_field fs : (length fs <= length (flat_map encode_field fs))%nat.
Proof.
  induction fs as [|f fs IH]; [done|].
  change (flat_map encode_field (f :: fs)) with (encode_field f ++ flat_map encode_field fs).
  rewrite length_app. destruct f as [|[k v]]; simpl; lia.
Qed.

Lemma Uint32_is_Some b : (4 <= length b)%nat -> is_Some (BigEndian.Uint32 b).
Proof. destruct b as [|b0 [|b1 [|b2 [|b3 b]]]]; simpl; try lia. by eexists. Qed.

Lemma Uint16_is_Some b : (2 <= length b)%nat -> is_Some (BigEndian.Uint16 b).
Proof. destruct b as [|b0 [|b1 b]]; simpl; try lia. by eexists. Qed.

Lemma parsePacket_is_Some data :
  (240 <= length data)%nat -> is_Some (parsePacket data).
Proof.
  intros Hlen. unfold parsePacket. rewrite decide_False by lia.
  destruct (Uint32_is_Some (slice data 4 8)) as [xid ->]; [rewrite length_slice; lia|].
  destruct (Uint16_is_Some (slice data 8 10)) as [secs ->]; [rewrite length_slice; lia|].
  destruct (Uint16_is_Some (slice data 10 12)) as [flags ->]; [rewrite length_slice; lia|].
  by eexists.
Qed.

Lemma parsePacket_Options data p :
  parsePacket data = Some p ->
  Options p = if bool_decide (240 < length data)%nat && has_cookie data
              then parse_options (length data) data 240 ∅ else ∅.
Proof.
  unfold parsePacket. case_decide; [done|].
  destruct (BigEndian.Uint32 _); [|done].
  destruct (BigEndian.Uint16 (slice data 8 10)); [|done].
  destruct (BigEndian.Uint16 (slice data 10 12)); [|done].
  simpl. by intros [= <-].
Qed.

End option_loop.

(** X9: a datagram that is too short, has exactly the 240 bytes of the
    fixed part, or does not carry the magic cookie 99.130.83.99 at offset
    236 has no message type for the server: it gets no reply and leaves the
    leases and the cursor as they were, in whatever state the server is. *)
Theorem no_options_no_reply (s : DHCP.Server) (data : list Z) :
  (length data <= 240)%nat \/ DHCP.has_cookie data = false ->
  DHCP.serve s data = Some (s, None).
Proof.
  intros H. unfold DHCP.serve.
  destruct (DHCP.parsePacket data) as [p|] eqn:Hp; [|done].
  apply dispatch_no_type. rewrite (parsePacket_Options _ _ Hp).
  destruct H as [Hlen| ->].
  - by rewrite bool_decide_false by lia.
  - by rewrite andb_false_r.
Qed.

Lemma no_options_no_reply_witness :
  DHCP.serve (DHCP.NewServer default_config)
    (header_bytes (discover_request mac_a)) = Some (DHCP.NewServer default_config, None).
Proof.
  apply (no_options_no_reply (DHCP.NewServer default_config)).
  left. vm_compute. lia.
Defined.

(** ** Datagrams as clients send them *)

Section datagrams.

Import DHCP.

Lemma parsePacket_options_area p area :
  wire_form p -> (0 < length area)%nat ->
  parsePacket (header_bytes p ++ area)
  = Some (with_options p (parse_options (240 + length area) (header_bytes p ++ area) 240 ∅)).
Proof. intros Hw Ha. by rewrite parsePacket_header_bytes. Qed.

Lemma parsePacket_fields_then p fs rest :
  wire_form p -> Forall plain_option (field_options fs) ->
  (0 < length (flat_map encode_field fs ++ rest))%nat ->
  (forall fuel pre opts, parse_options fuel (pre ++ rest) (length pre) opts = opts) ->
  parsePacket (header_bytes p ++ flat_map encode_field fs ++ rest)
  = Some (with_options p (list_to_map (reverse (field_options fs)))).
Proof.
  intros Hw Hp Hlen Hrest.
  rewrite parsePacket_options_area by done. do 2 f_equal.
  rewrite <- (length_header_bytes p Hw).
  rewrite (parse_options_fields fs (header_bytes p) rest ∅ _
             (foldl insert_option ∅ (field_options fs))); [|done| |done|done].
  - rewrite foldl_insert_option. by rewrite (right_id_L ∅ (∪)).
  - rewrite length_app. pose proof (length_flat_map_encode_field fs). lia.
Qed.

End datagrams.

(** X10: in the options area pad bytes are skipped, the end option ends the
    reading, and what follows it is not looked at. The options read are
    those before the end option, and when a tag comes more than once its
    last value is the one kept. *)
Theorem parsePacket_options_area_read (p : DHCP.Packet) (fs : list option_field)
    (junk : list Z) :
  wire_form p -> Forall plain_option (field_options fs) ->
  DHCP.parsePacket (header_bytes p ++ flat_map encode_field fs ++ 255 :: junk)
  = Some (with_options p (list_to_map (reverse (field_options fs)))).
Proof.
  intros Hw Hp. apply parsePacket_fields_then; [done|done| |].
  - rewrite length_app. simpl. lia.
  - intros fuel pre opts. apply parse_options_at_end.
Qed.

Lemma parsePacket_options_area_read_witness :
  DHCP.parsePacket
    (header_bytes (discover_request mac_a)
     ++ flat_map encode_field
          [PadField; OptionField (53, [3]); PadField; OptionField (93, [0; 7]);
           OptionField (53, [1])]
     ++ 255 :: [53; 1; 5; 9])
  = Some (with_options (discover_request mac_a) {[53 := [1]; 93 := [0; 7]]}).
Proof.
  rewrite (parsePacket_options_area_read (discover_request mac_a)
             [PadField; OptionField (53, [3]); PadField; OptionField (93, [0; 7]);
              OptionField (53, [1])] [53; 1; 5; 9]).
  - apply (f_equal Some). apply (f_equal (with_options (discover_request mac_a))).
    vm_compute. reflexivity.
  - unfold wire_form. split_and!; try (vm_compute; done); try lia.
    apply map_Forall_insert_2; [compute_done|].
    apply map_Forall_insert_2; [compute_done|]. apply map_Forall_empty.
  - repeat constructor; compute_done.
Defined.

(** X11: a datagram whose options area ends without an end option, or in
    the middle of an option (after its tag, or with fewer value bytes than
    its length byte announces), is not an error: the options that are
    complete are read, and the cut one is dropped. *)
Theorem parsePacket_cut_short (p : DHCP.Packet) (fs : list option_field) (t : list Z) :
  wire_form p -> Forall plain_option (field_options fs) -> cut_option t ->
  (0 < length (flat_map encode_field fs ++ t))%nat ->
  DHCP.parsePacket (header_bytes p ++ flat_map encode_field fs ++ t)
  = Some (with_options p (list_to_map (reverse (field_options fs)))).
Proof.
  intros Hw Hp Hcut Hlen. apply parsePacket_fields_then; [done|done|done|].
  intros fuel pre opts. by apply parse_options_cut.
Qed.

Lemma parsePacket_cut_short_witness :
  DHCP.parsePacket
    (header_bytes (discover_request mac_a)
     ++ flat_map encode_field [OptionField (53, [1])] ++ [93; 2; 0])
  = Some (with_options (discover_request mac_a) {[53 := [1]]}).
Proof.
  rewrite (parsePacket_cut_short (discover_request mac_a) [OptionField (53, [1])] [93; 2; 0]).
  - reflexivity.
  - unfold wire_form. split_and!; try (vm_compute; done); try lia.
    apply map_Forall_insert_2; [compute_done|].
    apply map_Forall_insert_2; [compute_done|]. apply map_Forall_empty.
  - repeat constructor; compute_done.
  - vm_compute. split_and!; [discriminate|discriminate|lia].
  - vm_compute. lia.
Defined.

(** ** The fixed part of the packet, for fields of any length *)

Section layout.

Import DHCP.

Local Ltac explode l H :=
  simpl in H;
  repeat (destruct l as [|? l]; [discriminate H|]);
  destruct l; [clear H|discriminate H].

Lemma header_sized p :
  length (CIAddr p) = 4%nat -> length (YIAddr p) = 4%nat ->
  length (SIAddr p) = 4%nat -> length (GIAddr p) = 4%nat ->
  length (CHAddr p) = 6%nat -> length (SName p) = 64%nat -> length (File p) = 128%nat ->
  take 240 (write_header p) = header_bytes p.
Proof.
  destruct p as [op ht hl hops xid secs flags ci yi si gi ch sn fl opts].
  simpl. intros Hci Hyi Hsi Hgi Hch Hsn Hfl.
  explode ci Hci. explode yi Hyi. explode si Hsi. explode gi Hgi. explode ch Hch.
  explode sn Hsn. explode fl Hfl.
  vm_compute. reflexivity.
Qed.

Lemma copy_nil dst : copy dst [] = dst.
Proof. unfold copy. rewrite Nat.min_0_r. done. Qed.

Lemma copy_at_nil buf lo hi : (lo <= hi <= length buf)%nat -> copy_at buf lo hi [] = buf.
Proof.
  intros H. unfold copy_at. rewrite copy_nil. unfold slice.
  rewrite app_assoc, take_take_drop. replace (lo + (hi - lo))%nat with hi by lia.
  apply take_drop.
Qed.

Lemma copy_copy n src : copy (make n) (copy (make n) src) = copy (make n) src.
Proof. apply copy_exact. rewrite length_copy. done. Qed.

Lemma copy_at_pad buf lo hi src :
  slice buf lo hi = make (hi - lo) ->
  copy_at buf lo hi src = copy_at buf lo hi (copy (make (hi - lo)) src).
Proof. intros Hz. unfold copy_at. by rewrite Hz, copy_copy. Qed.

Lemma slice_copy_at_after buf lo hi src lo' hi' :
  (lo <= hi <= length buf)%nat -> (hi <= lo')%nat ->
  slice (copy_at buf lo hi src) lo' hi' = slice buf lo' hi'.
Proof.
  intros Hb Hafter. unfold slice at 1 2. f_equal. unfold copy_at.
  rewrite app_assoc. rewrite drop_app_ge.
  2:{ rewrite length_app, length_take, length_copy, length_slice; lia. }
  rewrite length_app, length_take, length_copy, length_slice by lia.
  rewrite drop_drop. f_equal. lia.
Qed.

(** The test [p.CIAddr != nil] changes nothing: [To4] of [nil] is [nil], and
    copying [nil] writes nothing. *)
Lemma copy_To4_guard buf lo hi ip :
  (lo <= hi <= length buf)%nat ->
  match ip with [] => buf | _ => copy_at buf lo hi (To4 ip) end = copy_at buf lo hi (To4 ip).
Proof.
  intros H. destruct ip as [|b ip]; [|done].
  change (To4 []) with (@nil Z). by rewrite copy_at_nil.
Qed.

Lemma To4_copy4 src : To4 (copy (make 4) src) = copy (make 4) src.
Proof. apply To4_len4. by rewrite length_copy. Qed.

Local Ltac chain_length Hlen :=
  repeat (apply length_copy_at_576; [lia|]); exact Hlen.

Local Ltac in_buffer Hlen :=
  first
    [ lia
    | split; [lia|];
      match goal with
      | |- (_ <= length ?X)%nat =>
          let H := fresh in
          assert (length X = 576%nat) as H by chain_length Hlen; rewrite H; lia
      end ].

Lemma write_header_on_wire p : write_header p = write_header (on_wire p).
Proof.
  destruct p as [op ht hl hops xid secs flags ci yi si gi ch sn fl opts].
  unfold write_header, on_wire.
  cbn [Op HType HLen Hops XID Secs Flags CIAddr YIAddr SIAddr GIAddr CHAddr SName File].
  cbv zeta.
  set (b0 := copy_at (copy_at (copy_at
               (<[3%nat:=hops]> (<[2%nat:=hl]> (<[1%nat:=ht]> (<[0%nat:=op]> (make 576)))))
               4 8 (BigEndian.PutUint32 xid)) 8 10 (BigEndian.PutUint16 secs))
               10 12 (BigEndian.PutUint16 flags)).
  assert (length b0 = 576%nat) as Hlen by reflexivity.
  assert (slice b0 12 16 = make (16 - 12)) as Z1 by reflexivity.
  assert (slice b0 16 20 = make (20 - 16)) as Z2 by reflexivity.
  assert (slice b0 20 24 = make (24 - 20)) as Z3 by reflexivity.
  assert (slice b0 24 28 = make (28 - 24)) as Z4 by reflexivity.
  assert (slice b0 28 34 = make (34 - 28)) as Z5 by reflexivity.
  assert (slice b0 44 108 = make (108 - 44)) as Z6 by reflexivity.
  assert (slice b0 108 236 = make (236 - 108)) as Z7 by reflexivity.
  clearbody b0.
  rewrite (copy_To4_guard b0 12 16 ci) by (in_buffer Hlen).
  rewrite (copy_To4_guard _ 24 28 gi) by (in_buffer Hlen).
  rewrite (copy_To4_guard b0 12 16 (copy (make 4) (To4 ci))) by (in_buffer Hlen).
  rewrite (copy_To4_guard _ 24 28 (copy (make 4) (To4 gi))) by (in_buffer Hlen).
  rewrite !To4_copy4.
  do 4 f_equal.
  rewrite (copy_at_pad _ 108 236 fl).
  2:{ rewrite !slice_copy_at_after
        by (in_buffer Hlen).
      exact Z7. }
  f_equal.
  rewrite (copy_at_pad _ 44 108 sn).
  2:{ rewrite !slice_copy_at_after
        by (in_buffer Hlen).
      exact Z6. }
  f_equal.
  rewrite (copy_at_pad _ 28 34 ch).
  2:{ rewrite !slice_copy_at_after
        by (in_buffer Hlen).
      exact Z5. }
  f_equal.
  rewrite (copy_at_pad _ 24 28 (To4 gi)).
  2:{ rewrite !slice_copy_at_after
        by (in_buffer Hlen).
      exact Z4. }
  f_equal.
  rewrite (copy_at_pad _ 20 24 si).
  2:{ rewrite !slice_copy_at_after
        by (in_buffer Hlen).
      exact Z3. }
  f_equal.
  rewrite (copy_at_pad _ 16 20 yi).
  2:{ rewrite !slice_copy_at_after
        by (in_buffer Hlen).
      exact Z2. }
  f_equal.
  by rewrite (copy_at_pad _ 12 16 (To4 ci)).
Qed.

Lemma header_on_wire p : take 240 (write_header p) = header_bytes (on_wire p).
Proof.
  rewrite write_header_on_wire. apply header_sized; simpl;
    rewrite length_copy; unfold make; by rewrite length_replicate.
Qed.

Lemma length_fitting_prefix ord i cap :
  (i < cap)%nat ->
  (i + length (flat_map encode_option (fitting_prefix ord i cap)) < cap)%nat.
Proof.
  revert i. induction ord as [|[k v] ord IH]; intros i Hi; [simpl; lia|].
  cbn [fitting_prefix snd]. case_decide as Hfit; [simpl; lia|].
  change (flat_map encode_option ((k, v) :: ?l))
    with ((k :: to_byte (Z.of_nat (length v)) :: v) ++ flat_map encode_option l).
  rewrite length_app. cbn [length].
  specialize (IH (i + 2 + length v)%nat ltac:(lia)). lia.
Qed.

Lemma wire_form_on_wire p :
  0 <= XID p < 2 ^ 32 -> 0 <= Secs p < 2 ^ 16 -> 0 <= Flags p < 2 ^ 16 ->
  map_Forall (λ k v, plain_option (k, v)) (Options p) ->
  wire_form (on_wire p).
Proof.
  intros Hx Hs Hf Ho. unfold wire_form, on_wire. simpl.
  rewrite !length_copy. unfold make. rewrite !length_replicate. done.
Qed.

End layout.

(** X12: whatever the packet and the order of its options, the datagram
    [serializePacket] builds has between 241 and 576 bytes and ends in the
    end option; its first 240 bytes are the fixed part, where every address
    and array is cut or filled with zeros to the size of its field, a [nil]
    client or relay address stands as zeros, ten zero bytes follow the
    hardware address and the magic cookie closes it; and [parsePacket]
    accepts it. *)
Theorem serializePacket_frame (p : DHCP.Packet) (ord : list (Z * list Z)) :
  (241 <= length (DHCP.serializePacket p ord) <= 576)%nat
  /\ take 240 (DHCP.serializePacket p ord) = header_bytes (on_wire p)
  /\ last (DHCP.serializePacket p ord) = Some 255
  /\ is_Some (DHCP.parsePacket (DHCP.serializePacket p ord)).
Proof.
  rewrite serializePacket_shape.
  assert (length (take 240 (DHCP.write_header p)) = 240%nat) as Hlen
    by (rewrite length_take, length_write_header; lia).
  pose proof (length_fitting_prefix ord 240 576 ltac:(lia)) as Hfit.
  assert (241 <= length (take 240 (DHCP.write_header p)
                         ++ flat_map encode_option (fitting_prefix ord 240 576) ++ [255%Z])
          <= 576)%nat as Hbounds.
  { rewrite !length_app, Hlen. simpl. lia. }
  split; [exact Hbounds|]. split; [|split].
  - rewrite take_app_length' by done. apply header_on_wire.
  - by rewrite !app_assoc, last_snoc.
  - apply parsePacket_is_Some. lia.
Qed.

(** Reading back a fixed part followed by the options of the packet. *)
Lemma parse_header_options (p : DHCP.Packet) (ord : list (Z * list Z)) :
  wire_form p -> DHCP.range_order p ord ->
  DHCP.parsePacket (header_bytes p ++ flat_map encode_option ord ++ [255]) = Some p.
Proof.
  intros Hw Hord.
  rewrite parsePacket_header_bytes by (rewrite ?length_app; simpl; done || lia).
  rewrite <- (length_header_bytes p Hw).
  rewrite parse_options_encoded.
  - rewrite (foldl_insert_option_range_order (DHCP.Options p)) by done. by destruct p.
  - by eapply range_order_plain.
  - rewrite length_app, length_flat_map_encode. simpl. pose proof (length_options_size ord). lia.
Qed.

(** X13: a packet whose integers are in range and whose options have a tag
    other than pad and end and at most 255 bytes, serialized with all its
    options fitting, is read back by [parsePacket] as the packet that stands
    on the wire: the same integers, hardware type and options, the addresses
    and arrays at the size of their fields. *)
Theorem serialize_then_parse (p : DHCP.Packet) (ord : list (Z * list Z)) :
  0 <= DHCP.XID p < 2 ^ 32 -> 0 <= DHCP.Secs p < 2 ^ 16 -> 0 <= DHCP.Flags p < 2 ^ 16 ->
  map_Forall (λ k v, plain_option (k, v)) (DHCP.Options p) ->
  DHCP.range_order p ord -> options_fit ord ->
  DHCP.parsePacket (DHCP.serializePacket p ord) = Some (on_wire p).
Proof.
  intros Hx Hs Hf Ho Hord Hfit.
  pose proof (wire_form_on_wire p Hx Hs Hf Ho) as Hw.
  rewrite serializePacket_shape, header_on_wire.
  rewrite fitting_prefix_all by (unfold options_fit in Hfit; lia).
  by apply (parse_header_options (on_wire p)).
Qed.

Lemma serialize_then_parse_witness :
  DHCP.parsePacket
    (DHCP.serializePacket
       (DHCP.mkPacket 2 1 6 0 7 0 32768 [] [10; 0; 0; 100] (v4in6 10 0 0 1) [] mac_a
          (bytes_of_string "10.0.0.1") (bytes_of_string "bootx64.efi") {[53 := [2]]})
       [(53, [2])])
  = Some (on_wire
       (DHCP.mkPacket 2 1 6 0 7 0 32768 [] [10; 0; 0; 100] (v4in6 10 0 0 1) [] mac_a
          (bytes_of_string "10.0.0.1") (bytes_of_string "bootx64.efi") {[53 := [2]]})).
Proof.
  apply serialize_then_parse; try (simpl; lia).
  - apply map_Forall_singleton. compute_done.
  - unfold DHCP.range_order. simpl. by rewrite map_to_list_singleton.
  - unfold options_fit. vm_compute. lia.
Defined.

(** ** The reply, as the client reads it *)

Section reply_as_read.

Import DHCP.

Lemma subnet_broadcast_lengths serverIP mask subnet :
  subnet_broadcast serverIP mask = Some subnet ->
  (4 <= length serverIP)%nat /\ (4 <= length mask)%nat.
Proof.
  destruct serverIP as [|s0 [|s1 [|s2 [|s3 serverIP]]]];
    destruct mask as [|m0 [|m1 [|m2 [|m3 mask]]]]; try done.
  simpl. lia.
Qed.

Lemma sendReply_plain_options s req msgType clientIP reply :
  sendReply s req msgType clientIP = Some reply ->
  (length (BootFile (config s)) <= 255)%nat -> (length (TFTPServer (config s)) <= 255)%nat ->
  map_Forall (λ k v, plain_option (k, v)) (Options reply).
Proof.
  unfold sendReply.
  destruct (subnet_broadcast _ _) as [subnet|] eqn:Hsub; [|done].
  simpl. intros [= <-] Hb Ht. simpl.
  apply length_subnet_broadcast in Hsub.
  pose proof (length_To4 (ServerIP (config s))) as Hs.
  pose proof (length_To4 (SubnetMask (config s))) as Hm.
  repeat (apply map_Forall_insert_2;
          [unfold plain_option; simpl; split_and!; (done || lia)|]).
  apply map_Forall_empty.
Qed.

End reply_as_read.

(** X14: the reply of the server, serialized and read back with
    [parsePacket] as a client would, is the reply itself at the sizes of the
    wire: the options are all there and as built, the transaction identifier
    and the flags are those of the request, the client and relay addresses
    are zero, and the server address, the file and the server name stand as
    built. This holds when the boot file name and the TFTP server name have
    at most 255 bytes each and 292 together. *)
Theorem reply_read_back (s : DHCP.Server) (req reply : DHCP.Packet) (msgType : Z)
    (clientIP : list Z) (ord : list (Z * list Z)) :
  DHCP.sendReply s req msgType clientIP = Some reply ->
  0 <= DHCP.XID req < 2 ^ 32 -> 0 <= DHCP.Flags req < 2 ^ 16 ->
  (length (DHCP.BootFile (DHCP.config s)) <= 255)%nat ->
  (length (DHCP.TFTPServer (DHCP.config s)) <= 255)%nat ->
  (length (DHCP.BootFile (DHCP.config s)) + length (DHCP.TFTPServer (DHCP.config s)) <= 292)%nat ->
  DHCP.range_order reply ord ->
  exists decoded,
    DHCP.parsePacket (DHCP.serializePacket reply ord) = Some decoded
    /\ decoded = on_wire reply
    /\ DHCP.Options decoded = DHCP.Options reply
    /\ DHCP.XID decoded = DHCP.XID req /\ DHCP.Flags decoded = DHCP.Flags req
    /\ DHCP.CIAddr decoded = make 4 /\ DHCP.GIAddr decoded = make 4
    /\ DHCP.SIAddr decoded = DHCP.To4 (DHCP.ServerIP (DHCP.config s))
    /\ DHCP.File decoded = DHCP.File reply /\ DHCP.SName decoded = DHCP.SName reply
    /\ (length (DHCP.To4 clientIP) = 4%nat -> DHCP.YIAddr decoded = DHCP.To4 clientIP)
    /\ (length (DHCP.CHAddr req) = 6%nat -> DHCP.CHAddr decoded = DHCP.CHAddr req).
Proof.
  intros Hr Hx Hf Hb Ht Hsum Hord.
  pose proof (sendReply_plain_options _ _ _ _ _ Hr Hb Ht) as Hplain.
  pose proof (sendReply_options_fit _ _ _ _ _ _ Hr Hsum Hord) as Hfit.
  unfold DHCP.sendReply in Hr.
  destruct (DHCP.subnet_broadcast _ _) as [subnet|] eqn:Hsub; [|done].
  apply subnet_broadcast_lengths in Hsub as [Hs4 _].
  pose proof (length_To4 (DHCP.ServerIP (DHCP.config s))) as Hs4'.
  simpl in Hr. injection Hr as <-.
  exists (on_wire
    (DHCP.mkPacket 2 1 6 0 (DHCP.XID req) 0 (DHCP.Flags req) [] (DHCP.To4 clientIP)
       (DHCP.To4 (DHCP.ServerIP (DHCP.config s))) [] (DHCP.CHAddr req)
       (copy (make 64) (DHCP.TFTPServer (DHCP.config s)))
       (copy (make 128) (DHCP.BootFile (DHCP.config s)))
       (<[DHCP.OptBroadcast := subnet]>
         (<[DHCP.OptMessageType := [msgType]]>
         (<[DHCP.OptServerID := DHCP.To4 (DHCP.ServerIP (DHCP.config s))]>
         (<[DHCP.OptSubnetMask := DHCP.To4 (DHCP.SubnetMask (DHCP.config s))]>
         (<[DHCP.OptRouter := DHCP.To4 (DHCP.ServerIP (DHCP.config s))]>
         (<[DHCP.OptDNS := DHCP.To4 (DHCP.ServerIP (DHCP.config s))]>
         (<[DHCP.OptLeaseTime := [0; 0; 14; 16]]>
         (<[DHCP.OptBootFile := DHCP.BootFile (DHCP.config s)]>
         (<[DHCP.OptTFTPServer := DHCP.TFTPServer (DHCP.config s)]> ∅))))))))))).
  split.
  { rewrite serializePacket_shape, header_on_wire.
    rewrite fitting_prefix_all by (unfold options_fit in Hfit; lia).
    apply (parse_header_options (on_wire _)); [|done].
    apply wire_form_on_wire; simpl; done || lia. }
  split; [done|]. simpl.
  split; [done|]. split; [done|]. split; [done|]. split; [done|]. split; [done|].
  split; [apply copy_exact; unfold make; rewrite length_replicate; lia|].
  split; [apply copy_copy|]. split; [apply copy_copy|].
  split; intros Hl; apply copy_exact; unfold make; by rewrite length_replicate.
Qed.

Lemma reply_read_back_witness :
  exists reply decoded,
    DHCP.sendReply (DHCP.NewServer default_config) (discover_request mac_a) DHCP.OFFER
       [10; 0; 0; 100] = Some reply
    /\ DHCP.parsePacket (DHCP.serializePacket reply (map_to_list (DHCP.Options reply)))
       = Some decoded
    /\ DHCP.Options decoded = DHCP.Options reply
    /\ DHCP.YIAddr decoded = [10; 0; 0; 100].
Proof.
  destruct (sendReply_total (DHCP.NewServer default_config) (discover_request mac_a) DHCP.OFFER
              [10; 0; 0; 100]) as [reply Hr]; [by eexists|].
  assert (0 <= DHCP.XID (discover_request mac_a) < 2 ^ 32) as Hx by (simpl; lia).
  assert (0 <= DHCP.Flags (discover_request mac_a) < 2 ^ 16) as Hf by (simpl; lia).
  assert (length (DHCP.BootFile (DHCP.config (DHCP.NewServer default_config))) <= 255)%nat
    as Hb by (vm_compute; lia).
  assert (length (DHCP.TFTPServer (DHCP.config (DHCP.NewServer default_config))) <= 255)%nat
    as Ht by (vm_compute; lia).
  assert (length (DHCP.BootFile (DHCP.config (DHCP.NewServer default_config)))
          + length (DHCP.TFTPServer (DHCP.config (DHCP.NewServer default_config))) <= 292)%nat
    as Hsum by (vm_compute; lia).
  assert (DHCP.range_order reply (map_to_list (DHCP.Options reply))) as Hord
    by (unfold DHCP.range_order; reflexivity).
  destruct (reply_read_back (DHCP.NewServer default_config) (discover_request mac_a) reply
              DHCP.OFFER [10; 0; 0; 100] (map_to_list (DHCP.Options reply))
              Hr Hx Hf Hb Ht Hsum Hord)
    as (decoded & Hd & _ & Ho & _ & _ & _ & _ & _ & _ & _ & Hy & _).
  exists reply, decoded. split; [exact Hr|]. split; [exact Hd|]. split; [exact Ho|].
  apply Hy. reflexivity.
Defined.

(** ** The lease table over a run of the server *)

Section lease_table.

Import DHCP.

Lemma allocateIP_cases s mac ip s' :
  allocateIP s mac = Some (ip, s') ->
  (exists l, leases s !! HardwareAddr_String mac = Some l /\ ip = IP l /\ s' = s)
  \/ (exists v, leases s !! HardwareAddr_String mac = None /\ cursor s = Some v
                /\ ip = nextIP s
                /\ s' = {| config := config s;
                           leases := <[HardwareAddr_String mac := {| IP := nextIP s; MAC := mac |}]>
                                       (leases s);
                           nextIP := BigEndian.PutUint32 ((v + 1) mod 2 ^ 32) |}).
Proof.
  intros Ha. destruct (leases s !! HardwareAddr_String mac) as [l|] eqn:Hl.
  - left. rewrite (allocateIP_known _ _ _ Hl) in Ha. injection Ha as <- <-. by exists l.
  - right. destruct (cursor s) as [v|] eqn:Hv.
    + rewrite (allocateIP_fresh _ _ _ Hl Hv) in Ha. injection Ha as <- <-. by exists v.
    + exfalso. unfold allocateIP in Ha. rewrite Hl in Ha.
      unfold cursor, ip_value in Hv. rewrite Hv in Ha. done.
Qed.

Lemma dispatch_cases s pkt s' r :
  dispatch s pkt = Some (s', r) ->
  (s' = s /\ r = None)
  \/ (exists ip reply, allocateIP s (CHAddr pkt) = Some (ip, s') /\ r = Some reply
                       /\ YIAddr reply = To4 ip).
Proof.
  unfold dispatch. destruct (default [] (Options pkt !! OptMessageType)) as [|t rest].
  { intros [= <- <-]. by left. }
  unfold sendOffer, sendACK.
  destruct (t =? DISCOVER); [|destruct (t =? REQUEST)].
  - destruct (allocateIP s (CHAddr pkt)) as [[ip s1]|]; [|done]. simpl.
    destruct (sendReply s1 pkt OFFER ip) as [reply|] eqn:Hr; [|done]. simpl.
    intros [= <- <-]. right. exists ip, reply. split; [done|]. split; [done|].
    by apply sendReply_inv in Hr as [? _].
  - destruct (allocateIP s (CHAddr pkt)) as [[ip s1]|]; [|done]. simpl.
    destruct (sendReply s1 pkt ACK ip) as [reply|] eqn:Hr; [|done]. simpl.
    intros [= <- <-]. right. exists ip, reply. split; [done|]. split; [done|].
    by apply sendReply_inv in Hr as [? _].
  - intros [= <- <-]. by left.
Qed.

Lemma serve_cases s data s' r :
  serve s data = Some (s', r) ->
  (s' = s /\ r = None)
  \/ (exists pkt ip reply, parsePacket data = Some pkt
                           /\ allocateIP s (CHAddr pkt) = Some (ip, s') /\ r = Some reply
                           /\ YIAddr reply = To4 ip).
Proof.
  unfold serve. destruct (parsePacket data) as [pkt|]; [|intros [= <- <-]; by left].
  intros Hd. apply dispatch_cases in Hd as [?|(ip & reply & ? & ? & ?)]; [by left|].
  right. by exists pkt, ip, reply.
Qed.

Lemma cursor_counts_NewServer cfg start :
  bytes (RangeStart cfg) -> ip_value (RangeStart cfg) = Some start ->
  cursor_counts start (NewServer cfg).
Proof.
  intros Hb Hs. unfold cursor_counts, cursor, NewServer. simpl.
  rewrite dupIP_id, Hs, map_size_empty. f_equal.
  pose proof (ip_value_range _ _ Hb Hs). rewrite Z.add_0_r, Z.mod_small; lia.
Qed.

Lemma cursor_counts_allocateIP start s mac ip s' :
  cursor_counts start s -> allocateIP s mac = Some (ip, s') -> cursor_counts start s'.
Proof.
  intros Hc Ha.
  apply allocateIP_cases in Ha as [(l & _ & _ & ->)|(v & Hnew & Hv & _ & ->)]; [done|].
  unfold cursor_counts in *. unfold cursor at 1. cbn [nextIP leases].
  rewrite ip_value_PutUint32 by (apply Z.mod_pos_bound; lia).
  rewrite map_size_insert_None by done.
  rewrite Hv in Hc. injection Hc as ->.
  f_equal. rewrite Zplus_mod_idemp_l. f_equal. lia.
Qed.

Lemma cursor_counts_serve_all start s datagrams s' replies :
  cursor_counts start s -> serve_all s datagrams = Some (s', replies) ->
  cursor_counts start s'
  /\ (size (leases s') <= size (leases s) + length datagrams)%nat
  /\ (length replies <= length datagrams)%nat.
Proof.
  revert s replies. induction datagrams as [|data rest IH]; intros s replies Hc Hs.
  - simpl in Hs. injection Hs as <- <-. simpl. split; [done|lia].
  - cbn [serve_all] in Hs.
    destruct (serve s data) as [[s1 r]|] eqn:H1; [|done]. simpl in Hs.
    destruct (serve_all s1 rest) as [[s2 rs]|] eqn:H2; [|done]. simpl in Hs.
    injection Hs as <- <-.
    assert (cursor_counts start s1 /\ (size (leases s1) <= S (size (leases s)))%nat
            /\ (length (option_list r) <= 1)%nat) as (Hc1 & Hsz & Hr).
    { apply serve_cases in H1 as [[-> ->]|(pkt & ip & reply & _ & Ha & -> & _)].
      - split; [done|]. simpl. lia.
      - split; [by eapply cursor_counts_allocateIP|]. split; [|simpl; lia].
        apply allocateIP_cases in Ha as [(l & _ & _ & ->)|(v & Hnew & _ & _ & ->)]; [lia|].
        cbn [leases]. rewrite map_size_insert_None by done. lia. }
    destruct (IH s1 rs Hc1 H2) as (Hc2 & Hsz2 & Hr2).
    split; [done|]. rewrite length_app. simpl. lia.
Qed.

Lemma leases_apart_allocateIP start s mac ip s' :
  0 <= start -> cursor_counts start s -> leases_apart start s ->
  start + Z.of_nat (size (leases s)) < 2 ^ 32 ->
  allocateIP s mac = Some (ip, s') -> leases_apart start s'.
Proof.
  intros Hstart Hc [Hrange Hinj] Hroom Ha.
  apply allocateIP_cases in Ha as [(l & _ & _ & ->)|(v & Hnew & Hv & _ & ->)]; [done|].
  unfold cursor_counts in Hc. rewrite Hv in Hc. injection Hc as Hvv.
  rewrite Z.mod_small in Hvv by lia.
  assert (ip_value (nextIP s) = Some (start + Z.of_nat (size (leases s)))) as Hnext
    by (unfold cursor in Hv; by rewrite Hv, Hvv).
  unfold leases_apart. cbn [leases]. rewrite map_size_insert_None by done.
  split.
  - intros k l Hk. destruct (decide (k = HardwareAddr_String mac)) as [->|Hne].
    + rewrite lookup_insert_eq in Hk. injection Hk as <-. simpl.
      eexists. split; [exact Hnext|lia].
    + rewrite lookup_insert_ne in Hk by done.
      destruct (Hrange k l Hk) as (u & Hu & Hin). exists u. split; [done|lia].
  - intros k k' l l' Hk Hk' Heq.
    destruct (decide (k = HardwareAddr_String mac)) as [->|Hne];
      destruct (decide (k' = HardwareAddr_String mac)) as [->|Hne']; [done| | |].
    + rewrite lookup_insert_eq in Hk. injection Hk as <-.
      rewrite lookup_insert_ne in Hk' by done.
      destruct (Hrange k' l' Hk') as (u & Hu & Hin). simpl in Heq.
      rewrite Hnext, Hu in Heq. injection Heq as Heq. lia.
    + rewrite lookup_insert_eq in Hk'. injection Hk' as <-.
      rewrite lookup_insert_ne in Hk by done.
      destruct (Hrange k l Hk) as (u & Hu & Hin). simpl in Heq.
      rewrite Hnext, Hu in Heq. injection Heq as Heq. lia.
    + rewrite lookup_insert_ne in Hk, Hk' by done. by eapply Hinj.
Qed.

Lemma leases_apart_serve_all start s datagrams s' replies :
  0 <= start -> cursor_counts start s -> leases_apart start s ->
  start + Z.of_nat (size (leases s)) + Z.of_nat (length datagrams) <= 2 ^ 32 ->
  serve_all s datagrams = Some (s', replies) -> leases_apart start s'.
Proof.
  intros Hstart. revert s replies.
  induction datagrams as [|data rest IH]; intros s replies Hc Hl Hroom Hs.
  - simpl in Hs. by injection Hs as <- <-.
  - cbn [serve_all] in Hs.
    destruct (serve s data) as [[s1 r]|] eqn:H1; [|done]. simpl in Hs.
    destruct (serve_all s1 rest) as [[s2 rs]|] eqn:H2; [|done]. simpl in Hs.
    injection Hs as <- <-. cbn [length] in Hroom.
    assert (cursor_counts start s1 /\ leases_apart start s1
            /\ (size (leases s1) <= S (size (leases s)))%nat) as (Hc1 & Hl1 & Hsz).
    { apply serve_cases in H1 as [[-> ->]|(pkt & ip & reply & _ & Ha & -> & _)].
      - split; [done|]. split; [done|lia].
      - split; [by eapply cursor_counts_allocateIP|].
        split; [eapply leases_apart_allocateIP; [done|done|done| |exact Ha]; lia|].
        apply allocateIP_cases in Ha as [(l & _ & _ & ->)|(v & Hnew & _ & _ & ->)]; [lia|].
        cbn [leases]. rewrite map_size_insert_None by done. lia. }
    eapply (IH s1 rs); [done|done| |done]. lia.
Qed.

End lease_table.

(** X15: the server never drops or changes a lease and never touches its
    configuration: in a state it can serve from, whatever datagrams arrive,
    the loop goes through them all without a panic, sends at most one reply
    per datagram, and every lease held before is held after, with the same
    address. *)
Theorem leases_persist (s : DHCP.Server) (datagrams : list (list Z)) :
  can_serve s ->
  exists s' replies,
    DHCP.serve_all s datagrams = Some (s', replies)
    /\ can_serve s'
    /\ DHCP.config s' = DHCP.config s
    /\ (forall k l, DHCP.leases s !! k = Some l -> DHCP.leases s' !! k = Some l)
    /\ (length replies <= length datagrams)%nat.
Proof.
  intros Hs. destruct (serve_all_total s datagrams Hs) as (s' & rs & Hrun & Hs' & Hcfg & Hmono).
  exists s', rs. split; [done|]. split; [done|]. split; [done|]. split; [done|].
  clear Hs Hs' Hcfg Hmono. revert s rs Hrun.
  induction datagrams as [|data rest IH]; intros s rs Hrun.
  - simpl in Hrun. by injection Hrun as <- <-.
  - cbn [DHCP.serve_all] in Hrun.
    destruct (DHCP.serve s data) as [[s1 r]|]; [|done]. simpl in Hrun.
    destruct (DHCP.serve_all s1 rest) as [[s2 rs2]|] eqn:H2; [|done]. simpl in Hrun.
    injection Hrun as <- <-. specialize (IH s1 rs2 H2).
    rewrite length_app. destruct r; simpl; lia.
Qed.

Lemma leases_persist_witness :
  exists s' replies,
    DHCP.serve_all (DHCP.NewServer default_config) [discover_datagram; [1; 2; 3]]
    = Some (s', replies)
    /\ can_serve s'
    /\ DHCP.config s' = DHCP.config (DHCP.NewServer default_config)
    /\ (forall k l, DHCP.leases (DHCP.NewServer default_config) !! k = Some l ->
                    DHCP.leases s' !! k = Some l)
    /\ (length replies <= 2)%nat.
Proof.
  apply (leases_persist (DHCP.NewServer default_config) [discover_datagram; [1; 2; 3]]).
  split; by eexists.
Defined.

(** X16: over any run of the server from its start, the cursor is the start
    of the range plus the number of leases, modulo 2^32: addresses leave in
    order, one per hardware address seen, and none ever comes back. *)
Theorem cursor_counts_leases (cfg : DHCP.Config) (start : Z) (datagrams : list (list Z))
    (s' : DHCP.Server) (replies : list DHCP.Packet) :
  bytes (DHCP.RangeStart cfg) -> ip_value (DHCP.RangeStart cfg) = Some start ->
  DHCP.serve_all (DHCP.NewServer cfg) datagrams = Some (s', replies) ->
  cursor s' = Some ((start + Z.of_nat (size (DHCP.leases s'))) mod 2 ^ 32)
  /\ (size (DHCP.leases s') <= length datagrams)%nat.
Proof.
  intros Hb Hs Hrun.
  destruct (cursor_counts_serve_all start _ _ _ _ (cursor_counts_NewServer cfg start Hb Hs) Hrun)
    as (Hc & Hsz & _).
  split; [exact Hc|]. simpl in Hsz. rewrite map_size_empty in Hsz. lia.
Qed.

Lemma cursor_counts_leases_witness :
  exists s' replies,
    DHCP.serve_all (DHCP.NewServer default_config) [discover_datagram; discover_datagram]
    = Some (s', replies)
    /\ cursor s' = Some ((167772260 + Z.of_nat (size (DHCP.leases s'))) mod 2 ^ 32)
    /\ (size (DHCP.leases s') <= 2)%nat.
Proof.
  destruct (serve_all_total (DHCP.NewServer default_config) [discover_datagram; discover_datagram])
    as (s' & rs & Hrun & _); [split; by eexists|].
  exists s', rs. split; [exact Hrun|].
  apply (cursor_counts_leases default_config 167772260 [discover_datagram; discover_datagram] s' rs).
  - solve_bytes.
  - reflexivity.
  - exact Hrun.
Defined.

(** X17: as long as the addresses from the start of the range to 2^32 last
    for the datagrams received, the lease table never holds one address
    twice: two different hardware addresses have different addresses, all
    of them from the start of the range up to the cursor. *)
Theorem leases_never_shared (cfg : DHCP.Config) (start : Z) (datagrams : list (list Z))
    (s' : DHCP.Server) (replies : list DHCP.Packet) :
  bytes (DHCP.RangeStart cfg) -> ip_value (DHCP.RangeStart cfg) = Some start ->
  start + Z.of_nat (length datagrams) <= 2 ^ 32 ->
  DHCP.serve_all (DHCP.NewServer cfg) datagrams = Some (s', replies) ->
  (forall k k' l l',
     DHCP.leases s' !! k = Some l -> DHCP.leases s' !! k' = Some l' -> k ≠ k' ->
     DHCP.IP l ≠ DHCP.IP l')
  /\ (forall k l,
        DHCP.leases s' !! k = Some l ->
        exists u, ip_value (DHCP.IP l) = Some u
                  /\ start <= u < start + Z.of_nat (size (DHCP.leases s'))).
Proof.
  intros Hb Hs Hroom Hrun.
  pose proof (ip_value_range _ _ Hb Hs) as Hstart.
  assert (leases_apart start (DHCP.NewServer cfg)) as H0.
  { split; simpl; intros *; by rewrite lookup_empty. }
  assert (start + Z.of_nat (size (DHCP.leases (DHCP.NewServer cfg)))
          + Z.of_nat (length datagrams) <= 2 ^ 32) as Hroom0
    by (simpl; rewrite map_size_empty; lia).
  destruct (leases_apart_serve_all start _ _ _ _ (proj1 Hstart)
              (cursor_counts_NewServer cfg start Hb Hs) H0 Hroom0 Hrun) as [Hrange Hinj].
  split; [|exact Hrange].
  intros k k' l l' Hk Hk' Hne Heq. apply Hne. eapply Hinj; [done|done|by rewrite Heq].
Qed.

Lemma leases_never_shared_witness :
  exists s' replies,
    DHCP.serve_all (DHCP.NewServer default_config) [discover_datagram; discover_datagram]
    = Some (s', replies)
    /\ (forall k k' l l',
          DHCP.leases s' !! k = Some l -> DHCP.leases s' !! k' = Some l' -> k ≠ k' ->
          DHCP.IP l ≠ DHCP.IP l').
Proof.
  destruct (serve_all_total (DHCP.NewServer default_config) [discover_datagram; discover_datagram])
    as (s' & rs & Hrun & _); [split; by eexists|].
  exists s', rs. split; [exact Hrun|].
  apply (leases_never_shared default_config 167772260 [discover_datagram; discover_datagram] s' rs).
  - solve_bytes.
  - reflexivity.
  - simpl. lia.
  - exact Hrun.
Defined.

(** ** Where the server panics *)

Section panics.

Import DHCP.

Lemma To4_nil_or_four ip : To4 ip = [] \/ length (To4 ip) = 4%nat.
Proof.
  unfold To4. case_decide as H4; [by right|]. case_decide as H16; [|by left].
  destruct (_ && _); [|by left]. right. rewrite length_slice; lia.
Qed.

Lemma Uint32_None_iff b : BigEndian.Uint32 b = None <-> (length b < 4)%nat.
Proof.
  destruct b as [|b0 [|b1 [|b2 [|b3 b]]]]; simpl; split; (done || lia).
Qed.

Lemma subnet_broadcast_None_iff serverIP mask :
  subnet_broadcast serverIP mask = None <-> (length serverIP < 4)%nat \/ (length mask < 4)%nat.
Proof.
  destruct serverIP as [|s0 [|s1 [|s2 [|s3 serverIP]]]];
    destruct mask as [|m0 [|m1 [|m2 [|m3 mask]]]]; simpl; split;
    first [done | lia | intros _; left; lia | intros _; right; lia | intros [?|?]; lia ].
Qed.

Lemma byte_testbit_high b n : is_byte b -> 8 <= n -> Z.testbit b n = false.
Proof.
  intros Hb Hn. unfold is_byte in Hb. destruct (decide (b = 0)) as [->|Hne].
  - apply Z.bits_0.
  - apply Z.bits_above_log2; [lia|].
    assert (Z.log2 b < 8); [|lia]. apply Z.log2_lt_pow2; lia.
Qed.

Lemma testbit_255 n : 0 <= n < 8 -> Z.testbit 255 n = true.
Proof. intros Hn. change 255 with (Z.ones 8). apply Z.ones_spec_low. lia. Qed.

Lemma broadcast_byte s m :
  is_byte s -> is_byte m ->
  is_byte (Z.lor s (Z.lxor m 255))
  /\ Z.land (Z.lor s (Z.lxor m 255)) m = Z.land s m
  /\ Z.lor (Z.lor s (Z.lxor m 255)) m = 255.
Proof.
  intros Hs Hm.
  assert (Z.lxor m 255 = 255 - m) as Hx.
  { apply Z.bits_inj'. intros n Hn. rewrite Z.lxor_spec.
    destruct (decide (n < 8)) as [Hlow|Hhigh].
    - rewrite testbit_255 by lia.
      change 255 with (Z.ones 8). unfold Z.ones. rewrite Z.shiftl_1_l.
      replace (Z.pred (2 ^ 8) - m) with (2 ^ 8 - m - 1) by lia.
      replace (2 ^ 8 - m - 1) with (- m - 1 + 1 * 2 ^ 8) by lia.
      rewrite <- (Z.mod_small (- m - 1 + 1 * 2 ^ 8) (2 ^ 8)) by (unfold is_byte in Hm; lia).
      rewrite Z.mod_add by lia.
      rewrite Z.mod_pow2_bits_low by lia.
      replace (- m - 1) with (Z.lnot m) by (unfold Z.lnot; lia).
      rewrite Z.lnot_spec by lia. by destruct (Z.testbit m n).
    - rewrite (byte_testbit_high m n) by (done || lia).
      rewrite (byte_testbit_high (255 - m) n) by (unfold is_byte in *; lia).
      rewrite (byte_testbit_high 255 n) by (unfold is_byte; lia). done. }
  assert (is_byte (255 - m)) as Hx' by (unfold is_byte in *; lia).
  rewrite Hx. split; [|split].
  - unfold is_byte. split.
    + apply Z.lor_nonneg. unfold is_byte in *. lia.
    + destruct (decide (Z.lor s (255 - m) = 0)) as [->|Hne]; [lia|].
      assert (0 <= Z.lor s (255 - m)) by (apply Z.lor_nonneg; unfold is_byte in *; lia).
      apply Z.log2_lt_cancel. rewrite Z.log2_lor by (unfold is_byte in *; lia).
      change (Z.log2 256) with 8.
      assert (forall b, is_byte b -> Z.log2 b < 8) as Hlog.
      { intros b Hb. unfold is_byte in Hb. destruct (decide (b = 0)) as [->|?]; [done|].
        apply Z.log2_lt_pow2; lia. }
      pose proof (Hlog s Hs). pose proof (Hlog (255 - m) Hx'). lia.
  - apply Z.bits_inj'. intros n Hn. rewrite !Z.land_spec, Z.lor_spec, <- Hx, Z.lxor_spec.
    destruct (decide (n < 8)) as [Hlow|Hhigh].
    + rewrite testbit_255 by lia.
      by destruct (Z.testbit s n), (Z.testbit m n).
    + rewrite (byte_testbit_high m n) by (done || lia). by rewrite !andb_false_r.
  - apply Z.bits_inj'. intros n Hn. rewrite !Z.lor_spec, <- Hx, Z.lxor_spec.
    destruct (decide (n < 8)) as [Hlow|Hhigh].
    + rewrite testbit_255 by lia.
      by destruct (Z.testbit s n), (Z.testbit m n).
    + rewrite (byte_testbit_high m n), (byte_testbit_high s n) by (done || lia).
      rewrite (byte_testbit_high 255 n) by (unfold is_byte; lia). done.
Qed.

End panics.

(** X18: [allocateIP] panics exactly when the hardware address has no
    lease and the cursor is no IPv4 address, so that [To4] gives [nil] and
    [Uint32] indexes out of range. With a range start that did not parse,
    which [main] does not check, the first request of any client ends the
    server. *)
Theorem allocateIP_panics_iff (s : DHCP.Server) (mac : list Z) :
  DHCP.allocateIP s mac = None
  <-> DHCP.leases s !! DHCP.HardwareAddr_String mac = None /\ DHCP.To4 (DHCP.nextIP s) = [].
Proof.
  unfold DHCP.allocateIP.
  destruct (DHCP.leases s !! DHCP.HardwareAddr_String mac) as [l|].
  { split; [done|]. by intros [? _]. }
  destruct (BigEndian.Uint32 (DHCP.To4 (DHCP.nextIP s))) as [v|] eqn:Hv; simpl.
  - split; [done|]. intros [_ Hnil]. rewrite Hnil in Hv. done.
  - split; [|done]. intros _. split; [done|].
    apply Uint32_None_iff in Hv.
    destruct (To4_nil_or_four (DHCP.nextIP s)) as [Hnil|H4]; [done|lia].
Qed.

(** X19: [sendReply] panics exactly when the server address is no IPv4
    address or the subnet mask has less than four bytes: the loop that
    computes the broadcast address then indexes out of range. Nothing else
    in the request, the configuration or the state can make it fail. *)
Theorem sendReply_panics_iff (s : DHCP.Server) (req : DHCP.Packet) (msgType : Z)
    (clientIP : list Z) :
  DHCP.sendReply s req msgType clientIP = None
  <-> DHCP.To4 (DHCP.ServerIP (DHCP.config s)) = []
      \/ (length (DHCP.SubnetMask (DHCP.config s)) < 4)%nat.
Proof.
  unfold DHCP.sendReply.
  destruct (DHCP.subnet_broadcast _ _) as [subnet|] eqn:Hsub; simpl.
  - split; [done|]. intros H.
    assert (DHCP.subnet_broadcast (DHCP.To4 (DHCP.ServerIP (DHCP.config s)))
              (DHCP.SubnetMask (DHCP.config s)) = None) as Hnone.
    { apply subnet_broadcast_None_iff. destruct H as [-> | H]; [left; simpl; lia|by right]. }
    congruence.
  - split; [|done]. intros _. apply subnet_broadcast_None_iff in Hsub as [Hs|Hm]; [|by right].
    left. destruct (To4_nil_or_four (DHCP.ServerIP (DHCP.config s))) as [Hnil|H4]; [done|lia].
Qed.

(** X20: the address the reply is sent to, and that option 28 carries, is
    the broadcast address of the subnet of the server: each of its four
    bytes agrees with the server address where the mask has a one, and has
    a one where the mask has a zero. *)
Theorem subnet_broadcast_address (serverIP mask subnet : list Z) :
  bytes serverIP -> bytes mask ->
  DHCP.subnet_broadcast serverIP mask = Some subnet ->
  length subnet = 4%nat
  /\ bytes subnet
  /\ forall i b, subnet !! i = Some b ->
       exists s m, serverIP !! i = Some s /\ mask !! i = Some m
                   /\ Z.land b m = Z.land s m /\ Z.lor b m = 255.
Proof.
  intros Hs Hm Hsub.
  destruct serverIP as [|s0 [|s1 [|s2 [|s3 serverIP]]]];
    destruct mask as [|m0 [|m1 [|m2 [|m3 mask]]]]; try done.
  simpl in Hsub. injection Hsub as <-.
  inversion_clear Hs as [|? ? Hs0 Hs']. inversion_clear Hs' as [|? ? Hs1 Hs].
  inversion_clear Hs as [|? ? Hs2 Hs']. inversion_clear Hs' as [|? ? Hs3 _].
  inversion_clear Hm as [|? ? Hm0 Hm']. inversion_clear Hm' as [|? ? Hm1 Hm].
  inversion_clear Hm as [|? ? Hm2 Hm']. inversion_clear Hm' as [|? ? Hm3 _].
  destruct (broadcast_byte s0 m0 Hs0 Hm0) as (B0 & L0 & O0).
  destruct (broadcast_byte s1 m1 Hs1 Hm1) as (B1 & L1 & O1).
  destruct (broadcast_byte s2 m2 Hs2 Hm2) as (B2 & L2 & O2).
  destruct (broadcast_byte s3 m3 Hs3 Hm3) as (B3 & L3 & O3).
  split; [done|]. split; [repeat (apply Forall_cons; split; [assumption|]); by apply Forall_nil|].
  intros i b Hb. destruct i as [|[|[|[|i]]]]; simpl in Hb; try done;
    injection Hb as <-; eexists _, _; (split; [reflexivity|split; [reflexivity|done]]).
Qed.

Lemma subnet_broadcast_address_witness :
  DHCP.subnet_broadcast [10; 0; 0; 1] [255; 255; 255; 0] = Some [10; 0; 0; 255]
  /\ forall i b, [10; 0; 0; 255] !! i = Some b ->
       exists s m, [10; 0; 0; 1] !! i = Some s /\ [255; 255; 255; 0] !! i = Some m
                   /\ Z.land b m = Z.land s m /\ Z.lor b m = 255.
Proof.
  split; [reflexivity|].
  apply (subnet_broadcast_address [10; 0; 0; 1] [255; 255; 255; 0] [10; 0; 0; 255]).
  - solve_bytes.
  - solve_bytes.
  - reflexivity.
Defined.

(** X21: for a client that holds a lease, a DISCOVER or a REQUEST changes
    nothing in the server: the lease table and the cursor stay as they
    were, and the reply, if the message has one, carries the address of the
    lease. *)
Theorem known_client_no_change (s s' : DHCP.Server) (pkt : DHCP.Packet) (l : DHCP.lease)
    (r : option DHCP.Packet) :
  DHCP.leases s !! DHCP.HardwareAddr_String (DHCP.CHAddr pkt) = Some l ->
  DHCP.dispatch s pkt = Some (s', r) ->
  s' = s /\ forall reply, r = Some reply -> DHCP.YIAddr reply = DHCP.To4 (DHCP.IP l).
Proof.
  intros Hl Hd.
  apply dispatch_cases in Hd as [[-> ->]|(ip & reply & Ha & -> & Hy)]; [done|].
  rewrite (allocateIP_known _ _ _ Hl) in Ha. injection Ha as <- <-.
  split; [done|]. by intros ? [= <-].
Qed.

Lemma known_client_no_change_witness :
  exists s1 offer,
    DHCP.dispatch (DHCP.NewServer default_config) (discover_request mac_a) = Some (s1, Some offer)
    /\ forall s2 r,
         DHCP.dispatch s1 (discover_request mac_a) = Some (s2, r) ->
         s2 = s1 /\ forall reply, r = Some reply -> DHCP.YIAddr reply = [10; 0; 0; 100].
Proof.
  destruct (dispatch_total (DHCP.NewServer default_config) (discover_request mac_a))
    as (s1 & r & Hd & _); [split; by eexists|].
  apply dispatch_cases in Hd as Hc. destruct Hc as [[_ ->]|(ip & reply & Ha & -> & _)].
  { vm_compute in Hd. discriminate Hd. }
  exists s1, reply. split; [exact Hd|]. intros s2 r.
  vm_compute in Ha. injection Ha as <- <-.
  apply (known_client_no_change _ s2 (discover_request mac_a)
           (DHCP.mkLease (v4in6 10 0 0 100) mac_a) r).
  reflexivity.
Defined.

(** ** Names with two dots in a row *)

Section two_dots.

Import TFTP.

Lemma Contains_app_two_dots a b : Contains (a +:+ ".." +:+ b) ".." = true.
Proof.
  induction a as [|c a IH].
  - reflexivity.
  - apply (Contains_tail c), IH.
Qed.

Lemma TrimPrefix_two_dots a b :
  exists a', TrimPrefix (a +:+ ".." +:+ b) "/" = (a' +:+ ".." +:+ b)%string.
Proof.
  destruct a as [|c a].
  - exists EmptyString. reflexivity.
  - unfold TrimPrefix.
    change (String c a +:+ ".." +:+ b)%string with (String c (a +:+ ".." +:+ b)).
    cbn [strip_prefix]. destruct (Ascii.eqb "/" c).
    + exists a. reflexivity.
    + exists (String c a). reflexivity.
Qed.

End two_dots.

(** X22: a request is dropped not only when its cleaned name has a [..]
    element, but whenever two dots stand in a row anywhere in it, as in
    [boot..cfg]: the test is on the text of the name. The handler returns
    without reading a file and without an ERROR packet for the client. *)
Theorem two_dots_rejected (Clean : string → string) (Join : string → string → string)
    (ReadFile : string → option (list Z)) (s : TFTP.Server) (filename a b : string)
    (p : TFTP.peer) (fuel : nat) :
  Clean filename = (a +:+ ".." +:+ b)%string ->
  TFTP.handleRead Clean Join ReadFile s filename p fuel = ([], true).
Proof.
  intros Hclean. unfold TFTP.handleRead. rewrite Hclean.
  destruct (TrimPrefix_two_dots a b) as [a' ->].
  by rewrite Contains_app_two_dots.
Qed.

Lemma two_dots_rejected_witness :
  TFTP.handleRead TFTP.Clean_slash TFTP.Join_slash (single_file "tftp/boot..cfg" [1; 2; 3])
    {| TFTP.root := "./tftp" |} "boot..cfg" TFTP.prompt_client 1 = ([], true).
Proof.
  apply (two_dots_rejected TFTP.Clean_slash TFTP.Join_slash _ _ _ "boot" "cfg").
  reflexivity.
Defined.

(** ** Decoding, then encoding *)

Section reencode.

Import DHCP.

Lemma slice_adjacent (s : list Z) a b c :
  (a <= b <= c)%nat -> slice s a b ++ slice s b c = slice s a c.
Proof.
  intros H. unfold slice.
  replace (drop b s) with (drop (b - a) (drop a s)) by (rewrite drop_drop; f_equal; lia).
  rewrite take_take_drop. f_equal. lia.
Qed.

Lemma slice_four (s : list Z) a :
  (a + 4 <= length s)%nat ->
  slice s a (a + 4) = [s !!! a; s !!! (a + 1)%nat; s !!! (a + 2)%nat; s !!! (a + 3)%nat].
Proof.
  intros H. apply list_eq. intros k. rewrite lookup_slice.
  destruct k as [|[|[|[|k]]]]; simpl.
  all: try (rewrite decide_True by lia; rewrite list_lookup_lookup_total_lt by lia;
            do 2 f_equal; lia).
  by rewrite decide_False by lia.
Qed.

Lemma slice_two (s : list Z) a :
  (a + 2 <= length s)%nat -> slice s a (a + 2) = [s !!! a; s !!! (a + 1)%nat].
Proof.
  intros H. apply list_eq. intros k. rewrite lookup_slice.
  destruct k as [|[|k]]; simpl.
  all: try (rewrite decide_True by lia; rewrite list_lookup_lookup_total_lt by lia;
            do 2 f_equal; lia).
  by rewrite decide_False by lia.
Qed.

Lemma PutUint32_slice data a v :
  bytes data -> (a + 4 <= length data)%nat ->
  BigEndian.Uint32 (slice data a (a + 4)) = Some v ->
  BigEndian.PutUint32 v = slice data a (a + 4).
Proof.
  intros Hb Hlen. rewrite slice_four by done. intros Hv.
  apply PutUint32_Uint32; [..|done]; (apply Forall_lookup_total; [done|lia]).
Qed.

Lemma PutUint16_slice data a v :
  bytes data -> (a + 2 <= length data)%nat ->
  BigEndian.Uint16 (slice data a (a + 2)) = Some v ->
  BigEndian.PutUint16 v = slice data a (a + 2).
Proof.
  intros Hb Hlen. rewrite slice_two by done. intros Hv.
  apply PutUint16_Uint16; [..|done]; (apply Forall_lookup_total; [done|lia]).
Qed.

Lemma header_bytes_parsed data p :
  bytes data -> parsePacket data = Some p ->
  header_bytes p = take 34 data ++ make 10 ++ slice data 44 236 ++ [99; 130; 83; 99].
Proof.
  intros Hb. unfold parsePacket. case_decide as Hlen; [done|].
  destruct (BigEndian.Uint32 _) as [xid|] eqn:Hxid; [|done].
  destruct (BigEndian.Uint16 (slice data 8 10)) as [secs|] eqn:Hsecs; [|done].
  destruct (BigEndian.Uint16 (slice data 10 12)) as [flags|] eqn:Hflags; [|done].
  intros Hp. simpl in Hp. injection Hp as <-. unfold header_bytes.
  cbn [Op HType HLen Hops XID Secs Flags CIAddr YIAddr SIAddr GIAddr CHAddr SName File].
  rewrite (PutUint32_slice data 4 xid Hb ltac:(lia) Hxid).
  rewrite (PutUint16_slice data 8 secs Hb ltac:(lia) Hsecs).
  rewrite (PutUint16_slice data 10 flags Hb ltac:(lia) Hflags).
  rewrite !copy_exact by (unfold make; rewrite length_replicate, length_slice; lia).
  assert ([data !!! 0%nat; data !!! 1%nat; data !!! 2%nat; data !!! 3%nat] = slice data 0 4)
    as -> by (symmetry; apply (slice_four data 0); lia).
  rewrite <- (slice_0 data 34).
  change (4 + 4)%nat with 8%nat. change (8 + 2)%nat with 10%nat.
  change (10 + 2)%nat with 12%nat. change (0 + 4)%nat with 4%nat.
  rewrite <- (slice_adjacent data 0 28 34), <- (slice_adjacent data 0 24 28),
    <- (slice_adjacent data 0 20 24), <- (slice_adjacent data 0 16 20),
    <- (slice_adjacent data 0 12 16), <- (slice_adjacent data 0 10 12),
    <- (slice_adjacent data 0 8 10), <- (slice_adjacent data 0 4 8) by lia.
  rewrite <- (slice_adjacent data 44 108 236) by lia.
  by rewrite <- !app_assoc.
Qed.

End reencode.

(** X23: serializing a packet that [parsePacket] read from a datagram gives
    back the first 34 bytes of the datagram and its bytes 44 to 235 as they
    were. The ten bytes in between, the rest of the 16-byte hardware address
    field, come out as zeros, and the four bytes from 236 as the magic
    cookie, whatever the datagram had there. *)
Theorem parse_then_serialize_header (data : list Z) (p : DHCP.Packet) (ord : list (Z * list Z)) :
  bytes data -> DHCP.parsePacket data = Some p ->
  take 240 (DHCP.serializePacket p ord)
  = take 34 data ++ make 10 ++ slice data 44 236 ++ [99; 130; 83; 99].
Proof.
  intros Hb Hp.
  pose proof (parsePacket_wire_form data p Hb Hp) as Hw.
  rewrite serializePacket_shape.
  rewrite take_app_length' by (rewrite length_take, length_write_header; lia).
  rewrite header_wire_form by done. by apply header_bytes_parsed.
Qed.

Lemma parse_then_serialize_header_witness :
  exists p,
    DHCP.parsePacket (replicate 300 7) = Some p
    /\ take 240 (DHCP.serializePacket p [])
       = replicate 34 7 ++ make 10 ++ replicate 192 7 ++ [99; 130; 83; 99].
Proof.
  destruct (parsePacket_is_Some (replicate 300 7)) as [p Hp]; [vm_compute; lia|].
  exists p. split; [exact Hp|].
  apply (parse_then_serialize_header (replicate 300 7) p []).
  - by apply Forall_replicate.
  - exact Hp.
Defined.

(** ** The server as [main] starts it *)

Section started_by_main.

Import DHCP.





End started_by_main.



(** ** Requests, from the datagram to the last packet *)

Section whole_requests.

Import TFTP.

Lemma transfer_unacknowledged (m : nat) data p j hist fuel :
  never_acknowledges p ->
  1 <= j -> j + Z.of_nat m = block_count data -> block_count data <= 65536 ->
  (m < fuel)%nat ->
  transfer fuel data p (j mod 2 ^ 16) ((j - 1) * 512) hist
  = (concat (replicate 5 <$> (block_packet data <$> seqZ j (Z.of_nat (S m)))), true).
Proof.
  intros Hp. revert j hist fuel. induction m as [|m IH]; intros j hist fuel Hj Hm Hmax Hfuel.
  - destruct fuel as [|fuel]; [lia|].
    unfold block_count in *.
    pose proof (Z.div_mod (Z.of_nat (length data)) 512 ltac:(lia)) as Hdm.
    pose proof (Z.mod_pos_bound (Z.of_nat (length data)) 512 ltac:(lia)) as Hmb.
    rewrite transfer_round by lia. cbv zeta. rewrite decide_True by lia.
    rewrite send_block_unacknowledged by (intros; apply Hp).
    rewrite seqZ_cons by lia. rewrite seqZ_nil by lia.
    cbn [fmap list_fmap concat]. by rewrite app_nil_r.
  - destruct fuel as [|fuel]; [lia|].
    unfold block_count in *.
    pose proof (Z.div_mod (Z.of_nat (length data)) 512 ltac:(lia)) as Hdm.
    pose proof (Z.mod_pos_bound (Z.of_nat (length data)) 512 ltac:(lia)) as Hmb.
    rewrite transfer_round by lia. cbv zeta. rewrite decide_False by lia.
    rewrite send_block_unacknowledged by (intros; apply Hp).
    replace ((j mod 2 ^ 16) * 512) with ((j + 1 - 1) * 512) by (rewrite Z.mod_small; lia).
    rewrite (IH (j + 1)) by lia.
    rewrite (seqZ_cons j) by lia.
    replace (Z.succ j) with (j + 1) by lia.
    replace (Z.pred (Z.of_nat (S (S m)))) with (Z.of_nat (S m)) by lia.
    done.
Qed.

End whole_requests.

(** X25: a read request for a file of less than 512 bytes that can be
    read, under a name that holds no two dots in a row once cleaned, is
    answered with one DATA packet, block 1 with the whole file, written
    between one and five times (once, when the peer acknowledges at once);
    then the handler returns. *)
Theorem small_file_one_block (Clean : string → string) (Join : string → string → string)
    (ReadFile : string → option (list Z)) (s : TFTP.Server) (dgram : list Z)
    (filename : string) (data : list Z) (p : TFTP.peer) (fuel : nat) :
  TFTP.rrq_filename dgram = Some filename ->
  TFTP.Contains (TFTP.TrimPrefix (Clean filename) "/") ".." = false ->
  ReadFile (Join (TFTP.root s) (TFTP.TrimPrefix (Clean filename) "/")) = Some data ->
  (length data < 512)%nat -> (0 < fuel)%nat ->
  exists c,
    (1 <= c <= 5)%nat
    /\ (acks_at_once p -> c = 1%nat)
    /\ TFTP.serve Clean Join ReadFile s dgram p fuel
       = (TFTP.FileAccess (Join (TFTP.root s) (TFTP.TrimPrefix (Clean filename) "/"))
            :: replicate c (TFTP.Sent ([0; 3; 0; 1] ++ data)),
          true).
Proof.
  intros Hname Hclean Hfile Hsmall Hfuel.
  destruct fuel as [|fuel]; [lia|].
  pose proof (transfer_round fuel data p 1 [] ltac:(lia) ltac:(lia)) as Ht.
  change (1 mod 2 ^ 16) with 1 in Ht. change ((1 - 1) * 512) with 0 in Ht.
  cbv zeta in Ht. rewrite decide_True in Ht by lia.
  assert (block_packet data 1 = [0; 3; 0; 1] ++ data) as Hpkt.
  { unfold block_packet. rewrite data_packet_bytes.
    change (1 mod 2 ^ 16) with 1. change (BigEndian.PutUint16 TFTP.opDATA) with [0; 3].
    change (BigEndian.PutUint16 1) with [0; 1].
    rewrite block_chunk_take_drop by lia. change (Z.to_nat ((1 - 1) * 512)) with 0%nat.
    rewrite drop_0, take_ge by lia. done. }
  destruct (send_block_shape 5 (block_packet data 1) 1 p []) as (c & Hc & Hs); [lia|].
  exists c. split; [done|]. split.
  - intros Hp. unfold block_packet in Hs. change (1 mod 2 ^ 16) with 1 in Hs.
    rewrite send_block_acked in Hs by (done || lia). by destruct c as [|[|c]].
  - unfold TFTP.serve. rewrite Hname. unfold TFTP.handleRead. rewrite Hclean, Hfile, Ht, Hs, Hpkt.
    by rewrite fmap_replicate.
Qed.

Lemma small_file_one_block_witness :
  exists c,
    (1 <= c <= 5)%nat
    /\ (acks_at_once TFTP.prompt_client -> c = 1%nat)
    /\ TFTP.serve TFTP.Clean_slash TFTP.Join_slash (single_file "tftp/f" [1; 2; 3])
         {| TFTP.root := "./tftp" |} ([0; 1; 102; 0] ++ bytes_of_string "octet" ++ [0])
         TFTP.prompt_client 1
       = (TFTP.FileAccess "tftp/f" :: replicate c (TFTP.Sent ([0; 3; 0; 1] ++ [1; 2; 3])), true).
Proof.
  apply (small_file_one_block TFTP.Clean_slash TFTP.Join_slash (single_file "tftp/f" [1; 2; 3])
           {| TFTP.root := "./tftp" |} ([0; 1; 102; 0] ++ bytes_of_string "octet" ++ [0])
           "f" [1; 2; 3] TFTP.prompt_client 1).
  - reflexivity.
  - reflexivity.
  - reflexivity.
  - simpl. lia.
  - lia.
Defined.

(** X26: when no acknowledgement ever comes, because the peer is gone or
    answers with something else, the handler does not give up: for a file
    of less than 512 * 65536 bytes it writes every block of the file five
    times, in order, up to the last, and then returns. *)
Theorem unanswered_transfer_goes_on (data : list Z) (p : TFTP.peer) (fuel : nat) :
  never_acknowledges p ->
  Z.of_nat (length data) < 512 * 65536 ->
  block_count data <= Z.of_nat fuel ->
  TFTP.transfer fuel data p 1 0 []
  = (concat (replicate 5 <$> (block_packet data <$> seqZ 1 (block_count data))), true).
Proof.
  intros Hp Hsize Hfuel.
  pose proof (Z.div_mod (Z.of_nat (length data)) 512 ltac:(lia)) as Hdm.
  pose proof (Z.mod_pos_bound (Z.of_nat (length data)) 512 ltac:(lia)) as Hmb.
  pose proof (Z.div_pos (Z.of_nat (length data)) 512 ltac:(lia) ltac:(lia)) as Hdp.
  assert (1 <= block_count data <= 65536) as Hn by (unfold block_count; lia).
  pose proof (transfer_unacknowledged (Z.to_nat (block_count data - 1)) data p 1 [] fuel Hp
                ltac:(lia) ltac:(lia) ltac:(lia) ltac:(lia)) as Ht.
  change (1 mod 2 ^ 16) with 1 in Ht. change ((1 - 1) * 512) with 0 in Ht.
  replace (Z.of_nat (S (Z.to_nat (block_count data - 1)))) with (block_count data) in Ht by lia.
  exact Ht.
Qed.

Lemma unanswered_transfer_goes_on_witness :
  TFTP.transfer 2 (replicate 600 7) TFTP.silent_client 1 0 []
  = (concat (replicate 5 <$> (block_packet (replicate 600 7) <$> seqZ 1 (block_count (replicate 600 7)))),
     true).
Proof.
  apply (unanswered_transfer_goes_on (replicate 600 7) TFTP.silent_client 2).
  - intros block hist. reflexivity.
  - vm_compute. reflexivity.
  - vm_compute. discriminate.
Defined.

(** ** What the server never sends *)

Section never_sent.

Import DHCP.



End never_sent.

(** X27: an option that is not of the kind [parsePacket] reads, with the
    tag 0 or 255 or a value of more than 255 bytes (whose length byte keeps
    only the low eight bits of the length), does not come back: whenever the
    datagram is made of bytes, reading it gives a packet other than the one
    serialized. *)
Theorem odd_option_not_read_back (p : DHCP.Packet) (ord : list (Z * list Z)) (k : Z)
    (v : list Z) :
  bytes (DHCP.serializePacket p ord) ->
  DHCP.Options p !! k = Some v -> ~ plain_option (k, v) ->
  DHCP.parsePacket (DHCP.serializePacket p ord) ≠ Some (on_wire p)
  /\ DHCP.parsePacket (DHCP.serializePacket p ord) ≠ Some p.
Proof.
  intros Hb Hk Hodd.
  assert (forall q, DHCP.Options q = DHCP.Options p ->
                    DHCP.parsePacket (DHCP.serializePacket p ord) ≠ Some q) as Hne.
  { intros q Hq Hparse.
    pose proof (parsePacket_wire_form _ _ Hb Hparse) as Hw.
    destruct Hw as (_ & _ & _ & _ & _ & _ & _ & _ & _ & _ & Hplain).
    rewrite Hq in Hplain. by apply Hodd, (Hplain k v). }
  split; by apply Hne.
Qed.

Lemma odd_option_not_read_back_witness :
  DHCP.parsePacket
    (DHCP.serializePacket
       (DHCP.mkPacket 2 1 6 0 7 0 0 [] [10; 0; 0; 100] [10; 0; 0; 1] [] mac_a [] []
          {[67 := replicate 300 97]})
       [(67, replicate 300 97)])
  ≠ Some (DHCP.mkPacket 2 1 6 0 7 0 0 [] [10; 0; 0; 100] [10; 0; 0; 1] [] mac_a [] []
            {[67 := replicate 300 97]}).
Proof.
  apply (odd_option_not_read_back
           (DHCP.mkPacket 2 1 6 0 7 0 0 [] [10; 0; 0; 100] [10; 0; 0; 1] [] mac_a [] []
              {[67 := replicate 300 97]})
           [(67, replicate 300 97)] 67 (replicate 300 97)).
  - compute_done.
  - reflexivity.
  - intros (_ & _ & Hlen). vm_compute in Hlen. lia.
Defined.



(** ** Read requests, acknowledged *)

Section acknowledged.

Import TFTP.






End acknowledged.




(** ** A datagram, decoded and encoded again *)

Section decoded.

Import DHCP.

Lemma parsePacket_fields data p :
  bytes data -> parsePacket data = Some p -> fields_of data p.
Proof.
  intros Hb Hp. pose proof (parsePacket_wire_form data p Hb Hp) as Hw.
  destruct Hw as (Hx & Hs & Hf & _).
  revert Hp Hx Hs Hf.
  unfold parsePacket. case_decide as Hlen; [done|].
  destruct (BigEndian.Uint32 _) as [xid|] eqn:Hxid; [|done].
  destruct (BigEndian.Uint16 (slice data 8 10)) as [secs|] eqn:Hsecs; [|done].
  destruct (BigEndian.Uint16 (slice data 10 12)) as [flags|] eqn:Hflags; [|done].
  intros Hp. simpl in Hp. injection Hp as <-.
  cbn [XID Secs Flags]. intros Hx Hs Hf. unfold fields_of.
  cbn [Op HType HLen Hops XID Secs Flags CIAddr YIAddr SIAddr GIAddr CHAddr SName File].
  rewrite (PutUint32_slice data 4 xid Hb ltac:(lia) Hxid).
  rewrite (PutUint16_slice data 8 secs Hb ltac:(lia) Hsecs).
  rewrite (PutUint16_slice data 10 flags Hb ltac:(lia) Hflags).
  rewrite !copy_exact by (unfold make; rewrite length_replicate, length_slice; lia).
  done.
Qed.

Lemma parsePacket_options_of data p (fs : list option_field) junk :
  parsePacket data = Some p -> (240 <= length data)%nat ->
  has_cookie data = true ->
  drop 240 data = flat_map encode_field fs ++ 255 :: junk ->
  Forall plain_option (field_options fs) ->
  Options p = list_to_map (reverse (field_options fs)).
Proof.
  intros Hp Hlen Hcookie Harea Hplain.
  rewrite (parsePacket_Options _ _ Hp), Hcookie.
  assert (length (drop 240 data) = (length data - 240)%nat) as Hdrop by apply length_drop.
  rewrite Harea, length_app in Hdrop. cbn [length] in Hdrop.
  rewrite bool_decide_true by lia. cbn [andb].
  rewrite <- (take_drop 240 data) at 2. rewrite Harea.
  assert (length (take 240 data) = 240%nat) as H240 by (rewrite length_take; lia).
  rewrite <- H240 at 2.
  rewrite (parse_options_fields fs (take 240 data) (255 :: junk) ∅ _
             (foldl insert_option ∅ (field_options fs))).
  - rewrite foldl_insert_option. by rewrite (right_id_L ∅ (∪)).
  - done.
  - pose proof (length_flat_map_encode_field fs). lia.
  - intros fuel pre. apply parse_options_at_end.
  - done.
Qed.

End decoded.

(** C4: a datagram of at least 240 bytes is decoded into the packet that
    holds its fixed fields, byte for byte, and, when it carries the magic
    cookie, the options of its options area up to the end option (none
    without the cookie). Whatever order the encoder visits the options in,
    if they fit the 576-byte buffer, it writes these fields back at their
    offsets, with zeros in the ten bytes after the hardware address and the
    magic cookie, then the options and the end option; and decoding what it
    wrote gives the same packet again: the same fixed fields and the same
    option map. *)
Theorem decode_encode_roundtrip (data : list Z) :
  bytes data -> (240 <= length data)%nat ->
  exists p,
    DHCP.parsePacket data = Some p
    /\ fields_of data p
    /\ (DHCP.has_cookie data = false -> DHCP.Options p = ∅)
    /\ (forall fs junk,
          DHCP.has_cookie data = true ->
          drop 240 data = flat_map encode_field fs ++ 255 :: junk ->
          Forall plain_option (field_options fs) ->
          DHCP.Options p = list_to_map (reverse (field_options fs)))
    /\ forall ord,
        DHCP.range_order p ord -> options_fit ord ->
        DHCP.serializePacket p ord
        = take 34 data ++ make 10 ++ slice data 44 236 ++ [99; 130; 83; 99]
          ++ flat_map encode_option ord ++ [255]
        /\ DHCP.parsePacket (DHCP.serializePacket p ord) = Some p.
Proof.
  intros Hb Hlen.
  destruct (parsePacket_is_Some data Hlen) as [p Hp].
  pose proof (parsePacket_wire_form data p Hb Hp) as Hw.
  exists p. split; [done|]. split; [by apply parsePacket_fields|]. split; [|split].
  - intros Hno. rewrite (parsePacket_Options _ _ Hp), Hno. by rewrite andb_false_r.
  - intros fs junk Hcookie Harea Hplain. by eapply parsePacket_options_of.
  - intros ord Hord Hfit. split; [|by apply parse_serialize].
    rewrite serializePacket_shape, header_wire_form by done.
    rewrite fitting_prefix_all by (unfold options_fit in Hfit; lia).
    rewrite (header_bytes_parsed data p Hb Hp). by rewrite <- !app_assoc.
Qed.

Lemma decode_encode_roundtrip_witness :
  exists p,
    DHCP.parsePacket discover_datagram = Some p
    /\ fields_of discover_datagram p
    /\ DHCP.Options p = list_to_map (reverse [(53, [1]); (93, [0; 7])])
    /\ forall ord,
        DHCP.range_order p ord -> options_fit ord ->
        DHCP.serializePacket p ord
        = take 34 discover_datagram ++ make 10 ++ slice discover_datagram 44 236
          ++ [99; 130; 83; 99] ++ flat_map encode_option ord ++ [255]
        /\ DHCP.parsePacket (DHCP.serializePacket p ord) = Some p.
Proof.
  assert (bytes discover_datagram) as Hb by compute_done.
  assert (240 <= length discover_datagram)%nat as Hlen by (vm_compute; lia).
  destruct (decode_encode_roundtrip discover_datagram Hb Hlen)
    as (p & Hp & Hfields & _ & Hopts & Hround).
  exists p. split; [exact Hp|]. split; [exact Hfields|]. split; [|exact Hround].
  apply (Hopts [OptionField (53, [1]); OptionField (93, [0; 7])] []).
  - reflexivity.
  - reflexivity.
  - repeat constructor; compute_done.
Defined.

(** ** The end of the address space *)

